(** * amarin/logging: a shallow embedding of the facade's core

    The development follows the Go sources file by file:
    constants.go (the module error marker), level.go (levels, formats,
    targets and the configuration record), context.go (context key
    extraction), writer.go (locked writers and the writers registry),
    backend.go (the zap backend life cycle) and logging.go (the
    process-wide session).

    Conventions.
    - Go's [int] levels are [Z]; strings and byte slices are [string]
      (a list of bytes); Go maps are stdpp [gmap]s.  The one map the
      code assigns to that can be nil, [contextExtractors], keeps the
      nil case ([extractor_map]).
    - Calls on shared state that can overlap are split into the steps
      between which another goroutine can run, and interleaved by a
      schedule.
    - A pointer is an address into an explicit heap (a list, the address
      being the index), so that identity of instances can be stated.
    - An [error] keeps the [fmt.Errorf] call as data: the format, the
      operand of the leading [%w] verb and the remaining operands.
    - A call that may not return normally yields an [outcome]. *)

From Stdlib Require Import ZArith Ascii String List Bool Lia.
From stdpp Require Import base option list gmap strings fin_maps.
From stdpp Require Import pretty.

Local Open Scope Z_scope.

(* ===================================================================== *)
(** ** constants.go and the error values *)
(* ===================================================================== *)

Inductive error : Type :=
| errors_New (text : string)
| fmt_Errorf (format : string) (w : error) (args : list operand)
with operand : Type :=
| op_error (e : error)
| op_string (s : string)
| op_int (l : Z).

Definition moduleName : string := "logging".

(** [var Error = errors.New(moduleName)] *)
Definition Error : error := errors_New moduleName.

(** [errors.Unwrap]: the operand of the [%w] verb. *)
Definition errors_Unwrap (e : error) : option error :=
  match e with
  | errors_New _ => None
  | fmt_Errorf _ w _ => Some w
  end.

(** [errors.Is(e, Error)]: [Error] is the only value built from
    [moduleName], so identity with it is equality of the text. *)
Fixpoint is_module_error (e : error) : bool :=
  match e with
  | errors_New text => String.eqb text moduleName
  | fmt_Errorf _ w _ => is_module_error w
  end.

(** The text after the leading [%w] of a format, which is what the
    message shows after the marker. *)
Definition error_format (e : error) : string :=
  match e with
  | errors_New text => text
  | fmt_Errorf format _ _ => format
  end.

(** How a call ends: it returns a value, it panics with a value, or it
    never returns because it waits for a mutex nobody will release. *)
Inductive outcome (A : Type) : Type :=
| Returns (a : A)
| Panics (e : error)
| Blocks.
Arguments Returns {A} a.
Arguments Panics {A} e.
Arguments Blocks {A}.

(* ===================================================================== *)
(** ** level.go: Level *)
(* ===================================================================== *)

Abbreviation Level := Z.

Definition levelTraceName : string := "trace".
Definition levelDebugName : string := "debug".
Definition levelInfoName : string := "info".
Definition levelWarnName : string := "warn".
Definition levelErrorName : string := "error".
Definition levelPanicName : string := "panic".
Definition levelFatalName : string := "fatal".
Definition levelUnknownName : string := "level".

Definition LevelTrace : Level := 0.
Definition LevelDebug : Level := 1.
Definition LevelInfo : Level := 2.
Definition LevelWarn : Level := 3.
Definition LevelError : Level := 4.
Definition LevelPanic : Level := 5.
Definition LevelFatal : Level := 6.
Definition DefaultLevel : Level := LevelInfo.

(** [func (l Level) IsEnabledForLevel(level Level) bool] *)
Definition Level_IsEnabledForLevel (l level : Level) : bool := level >=? l.

(** The [switch l { case LevelTrace, ..., LevelFatal: }] of [Validate]. *)
Definition is_defined_level (l : Level) : bool :=
  (l =? LevelTrace) || (l =? LevelDebug) || (l =? LevelInfo) || (l =? LevelWarn)
  || (l =? LevelError) || (l =? LevelPanic) || (l =? LevelFatal).

(** [func (l Level) MarshalText() (text []byte, err error)] *)
Definition Level_MarshalText (l : Level) : option string * option error :=
  if l =? LevelTrace then (Some levelTraceName, None)
  else if l =? LevelDebug then (Some levelDebugName, None)
  else if l =? LevelInfo then (Some levelInfoName, None)
  else if l =? LevelWarn then (Some levelWarnName, None)
  else if l =? LevelError then (Some levelErrorName, None)
  else if l =? LevelPanic then (Some levelPanicName, None)
  else if l =? LevelFatal then (Some levelFatalName, None)
  else (None, Some (fmt_Errorf "%w: unknown level value %v" Error [op_int l])).

(** *** strings.ToLower

    Go lowers a string of ASCII bytes byte by byte; a string with a byte
    of 0x80 or more goes through [strings.Map(unicode.ToLower, s)], whose
    Unicode tables are not part of this repository: that path is a
    parameter of the section. *)

Definition is_ascii_byte (c : ascii) : bool := (N_of_ascii c <? 128)%N.

Definition is_ascii_upper (c : ascii) : bool :=
  ((65 <=? N_of_ascii c) && (N_of_ascii c <=? 90))%N.

Definition ascii_lower (c : ascii) : ascii :=
  if is_ascii_upper c then ascii_of_N (N_of_ascii c + 32) else c.

Fixpoint all_ascii (s : string) : bool :=
  match s with
  | EmptyString => true
  | String c s' => is_ascii_byte c && all_ascii s'
  end.

Fixpoint map_ascii_lower (s : string) : string :=
  match s with
  | EmptyString => EmptyString
  | String c s' => String (ascii_lower c) (map_ascii_lower s')
  end.

Section LevelText.

(** [strings.Map(unicode.ToLower, s)] for a string that is not ASCII. *)
Variable unicode_ToLower : string -> string.

Definition strings_ToLower (s : string) : string :=
  if all_ascii s then map_ascii_lower s else unicode_ToLower s.

(** One [case a, b, c:] of a switch over a string. *)
Definition case_of (s : string) (labels : list string) : bool :=
  existsb (String.eqb s) labels.

(** [func (l *Level) UnmarshalText(text []byte) error].
    The receiver is [None] for a nil pointer and [Some v] for a pointer
    to a cell holding [v]; the cell after the call comes first. *)
Definition Level_UnmarshalText (l : option Level) (text : string)
  : option Level * option error :=
  match l with
  | None => (None, Some (fmt_Errorf "`%w: unmarshal into nil" Error []))
  | Some v =>
    let s := strings_ToLower text in
    if case_of s [levelTraceName; "t"; "trc"] then (Some LevelTrace, None)
    else if case_of s [levelDebugName; "d"; "dbg"] then (Some LevelDebug, None)
    else if case_of s [levelInfoName; "i"; "inf"] then (Some LevelInfo, None)
    else if case_of s [levelWarnName; "warning"; "w"; "wrn"] then (Some LevelWarn, None)
    else if case_of s [levelErrorName; "e"; "err"] then (Some LevelError, None)
    else if case_of s [levelPanicName; "p"] then (Some LevelPanic, None)
    else if case_of s [levelFatalName; "f"] then (Some LevelFatal, None)
    else (Some v, Some (fmt_Errorf "%w: unrecognized level: %q" Error [op_string text]))
  end.

End LevelText.

(** The names [UnmarshalText] accepts, each with its level. *)
Definition level_names : list (string * Level) :=
  [ ("trace", LevelTrace); ("t", LevelTrace); ("trc", LevelTrace);
    ("debug", LevelDebug); ("d", LevelDebug); ("dbg", LevelDebug);
    ("info", LevelInfo); ("i", LevelInfo); ("inf", LevelInfo);
    ("warn", LevelWarn); ("warning", LevelWarn); ("w", LevelWarn); ("wrn", LevelWarn);
    ("error", LevelError); ("e", LevelError); ("err", LevelError);
    ("panic", LevelPanic); ("p", LevelPanic);
    ("fatal", LevelFatal); ("f", LevelFatal) ]%string.

(** The short aliases alone, as documented. *)
Definition level_aliases : list (string * Level) :=
  [ ("t", LevelTrace); ("trc", LevelTrace);
    ("d", LevelDebug); ("dbg", LevelDebug);
    ("i", LevelInfo); ("inf", LevelInfo);
    ("w", LevelWarn); ("wrn", LevelWarn); ("warning", LevelWarn);
    ("e", LevelError); ("err", LevelError);
    ("p", LevelPanic);
    ("f", LevelFatal) ]%string.

Definition canonical_names : list string :=
  [levelTraceName; levelDebugName; levelInfoName; levelWarnName;
   levelErrorName; levelPanicName; levelFatalName].

Definition defined_levels : list Level :=
  [LevelTrace; LevelDebug; LevelInfo; LevelWarn; LevelError; LevelPanic; LevelFatal].

(* ===================================================================== *)
(** ** format.go and target.go *)
(* ===================================================================== *)

Abbreviation Format := string.
Abbreviation Target := string.

Definition FormatText : Format := "text".
Definition FormatJSON : Format := "json".
Definition DefaultFormat : Format := FormatText.

Definition StdOut : Target := "stdout".
Definition StdErr : Target := "stderr".
Definition SysLog : Target := "syslog".
Definition DefaultOutput : Target := StdOut.

(** [func (f Format) Validate() error] *)
Definition Format_Validate (f : Format) : option error :=
  if String.eqb f FormatText then None
  else if String.eqb f FormatJSON then None
  else Some (fmt_Errorf "%w: unexpected format `%v`, want `%s` or `%s" Error
               [op_string f; op_string FormatText; op_string FormatJSON]).

(** [func (output Target) Validate() error] *)
Definition Target_Validate (output : Target) : option error :=
  if String.eqb output "" then
    Some (fmt_Errorf "%w: output empty, want '%v', '%v', '%v' or file path" Error
            [op_string StdOut; op_string StdErr; op_string SysLog])
  else None.

(* ===================================================================== *)
(** ** keys.go and context.go: keys, contexts and extractors *)
(* ===================================================================== *)

Abbreviation Key := string.

(** A non-nil value of type [any]; [None : any] is the nil interface. *)
Inductive value : Type :=
| v_int (n : Z)
| v_string (s : string)
| v_bool (b : bool).

Abbreviation any := (option value).

(** [type Keys map[Key]any] *)
Abbreviation Keys := (gmap string (option value)).

(** Keys of a [context.Context]: the package's own [loggableContextKey],
    or a key of some other type, which never equals one of them. *)
Inductive context_key : Type :=
| loggableContextKey (k : string)
| foreign_key (n : nat).

Definition context_key_eqb (a b : context_key) : bool :=
  match a, b with
  | loggableContextKey x, loggableContextKey y => String.eqb x y
  | foreign_key x, foreign_key y => Nat.eqb x y
  | _, _ => false
  end.

(** A context is the chain of its [context.WithValue] layers, the
    innermost first; [context.Background()] is the empty chain. *)
Definition Context : Type := list (context_key * any).

Definition context_Background : Context := [].

Definition context_WithValue (ctx : Context) (k : context_key) (v : any) : Context :=
  (k, v) :: ctx.

(** [ctx.Value(key)]: the innermost layer with that key, nil if none. *)
Fixpoint Context_Value (ctx : Context) (k : context_key) : any :=
  match ctx with
  | [] => None
  | (k', v) :: rest => if context_key_eqb k' k then v else Context_Value rest k
  end.

(** [type ContextExtractorFunc func(ctx context.Context) (Key, any)] *)
Definition ContextExtractorFunc : Type := Context -> Key * any.

Definition Key_loggingKey (k : Key) : context_key := loggableContextKey k.

(** [func (k Key) SetToCtx(ctx context.Context, value any) context.Context] *)
Definition Key_SetToCtx (k : Key) (ctx : Context) (v : any) : Context :=
  context_WithValue ctx (Key_loggingKey k) v.

Definition Key_getFromCtx (k : Key) (ctx : Context) : any :=
  Context_Value ctx (Key_loggingKey k).

(** [func (k Key) Extractor() ContextExtractorFunc] *)
Definition Key_Extractor (k : Key) : ContextExtractorFunc :=
  fun ctx => (k, Key_getFromCtx k ctx).

(* ===================================================================== *)
(** ** config.go: Config *)
(* ===================================================================== *)

(** The field [contextExtractors]: the nil map of a [Config] that
    [NewConfig] did not make ([new(Config)], a struct literal, the
    [_config] of a fresh [Backend]), or a map that was made.  Go reads a
    nil map like an empty one and panics on an assignment to it. *)
Inductive extractor_map : Type :=
| nil_map
| made_map (m : gmap string ContextExtractorFunc).

(** The entries a read finds in the map: none in a nil map. *)
Definition entries (em : extractor_map) : gmap string ContextExtractorFunc :=
  match em with
  | nil_map => ∅
  | made_map m => m
  end.

(** Reading the field, by [m[k]] or by [range], reads its entries. *)
Coercion entries : extractor_map >-> gmap.

#[global] Instance extractor_map_lookup : Lookup string ContextExtractorFunc extractor_map :=
  fun k em => entries em !! k.

#[global] Instance extractor_map_fold : MapFold string ContextExtractorFunc extractor_map :=
  fun B f b em => map_fold f b (entries em).

(** [CustomLevels] is only read by the code below, and a nil map reads
    like an empty one. *)
Record Config : Type := mkConfig {
  c_Level : Level;
  c_Format : Format;
  c_Output : Target;
  c_CustomLevels : gmap string Z;
  c_contextExtractors : extractor_map
}.

(** [func NewConfig() *Config] *)
Definition NewConfig : Config :=
  {| c_Level := DefaultLevel;
     c_Format := DefaultFormat;
     c_Output := DefaultOutput;
     c_CustomLevels := ∅;
     c_contextExtractors := made_map ∅ |}.

(** The zero value, as in [new(Config)] or the [_config] of a fresh
    [Backend]. *)
Definition zero_Config : Config :=
  {| c_Level := 0; c_Format := ""; c_Output := "";
     c_CustomLevels := ∅; c_contextExtractors := nil_map |}.

(** A [for k, v := range m] statement visits every entry of [m] once, in
    an order Go leaves unspecified: any permutation of the entries. *)
Definition ranges_over {V : Type} (visited : list (string * V)) (m : gmap string V) : Prop :=
  visited ≡ₚ map_to_list m.

(** The loop over [config.CustomLevels] in [Validate], for the entries in
    the order the [range] visits them. *)
Fixpoint validate_custom_levels (visited : list (string * Z)) : option error :=
  match visited with
  | [] => None
  | (k, lvl) :: rest =>
    if is_defined_level lvl then validate_custom_levels rest
    else Some (fmt_Errorf "%w: unknown level %v: `%v`" Error [op_string k; op_int lvl])
  end.

(** [func (config Config) Validate() error], with the order in which the
    [range] over [CustomLevels] visits the entries. *)
Definition Config_Validate_in (visited : list (string * Z)) (config : Config) : option error :=
  if String.eqb (c_Output config) "" then
    Some (fmt_Errorf "%w: output empty, expected '%v', '%v' or absolute file path" Error
            [op_string StdOut; op_string SysLog])
  else
    match Format_Validate (c_Format config) with
    | Some err => Some err
    | None =>
      if is_defined_level (c_Level config) then validate_custom_levels visited
      else Some (fmt_Errorf "%w: unknown level: `%v`" Error [op_int (c_Level config)])
    end.

(** [Validate] with stdpp's enumeration of the map as the visiting order. *)
Definition Config_Validate (config : Config) : option error :=
  Config_Validate_in (map_to_list (c_CustomLevels config)) config.

(** [func (config Config) levelForNamed(name string, levels ...Level) Level] *)
Definition Config_levelForNamed (config : Config) (name : string) (levels : list Level) : Level :=
  match c_CustomLevels config !! name, levels with
  | None, [] => c_Level config
  | None, l0 :: _ => l0
  | Some customLevel, _ => customLevel
  end.

(** [type Option]: a function that updates the [Config] it is given,
    for an option that returns on every [Config]. *)
Definition Option : Type := Config -> Config.

(** [func (config *Config) Apply(opts ...Option)] *)
Definition Config_Apply (config : Config) (opts : list Option) : Config :=
  foldl (fun c o => o c) config opts.

Definition WithLevel (level : Level) : Option :=
  fun c => {| c_Level := level; c_Format := c_Format c; c_Output := c_Output c;
              c_CustomLevels := c_CustomLevels c;
              c_contextExtractors := c_contextExtractors c |}.

Definition WithFormat (format : Format) : Option :=
  fun c => {| c_Level := c_Level c; c_Format := format; c_Output := c_Output c;
              c_CustomLevels := c_CustomLevels c;
              c_contextExtractors := c_contextExtractors c |}.

Definition WithTarget (target : Target) : Option :=
  fun c => {| c_Level := c_Level c; c_Format := c_Format c; c_Output := target;
              c_CustomLevels := c_CustomLevels c;
              c_contextExtractors := c_contextExtractors c |}.

Definition set_contextExtractors (c : Config) (m : extractor_map) : Config :=
  {| c_Level := c_Level c; c_Format := c_Format c; c_Output := c_Output c;
     c_CustomLevels := c_CustomLevels c; c_contextExtractors := m |}.

(** The panic of the Go runtime on [m[k] = v] for a nil map. *)
Definition nil_map_assignment : error := errors_New "assignment to entry in nil map".

(** [func WithContextExtractors(extractors ...ContextExtractorFunc) Option],
    called on a [Config]: each extractor is filed under the key it
    returns for the background context.  The first assignment panics on
    a nil map, before anything is written; without extractors the loop
    does nothing.  As the call does not return on every [Config], it is
    applied to the [Config] directly and is not among the [Option]s of
    [Config_Apply]. *)
Definition WithContextExtractors (extractors : list ContextExtractorFunc) (config : Config)
  : outcome Config :=
  match extractors, c_contextExtractors config with
  | [], _ => Returns config
  | _ :: _, nil_map => Panics nil_map_assignment
  | _ :: _, made_map m =>
    Returns (set_contextExtractors config
               (made_map
                  (foldl (fun m extractor =>
                            <[fst (extractor context_Background) := extractor]> m)
                         m extractors)))
  end.

(** The body of the loop of [contextKeys]. *)
Definition contextKeys_step (ctx : Context) (res : gmap string (option value))
    (entry : string * ContextExtractorFunc) : gmap string (option value) :=
  let '(k, v) := snd entry ctx in
  match v with
  | Some _ => <[k := v]> res
  | None => res
  end.

(** [func (config *Config) contextKeys(ctx context.Context) Keys], for the
    extractors in the order the [range] visits them. *)
Definition Config_contextKeys_in (visited : list (string * ContextExtractorFunc))
    (ctx : Context) : gmap string (option value) :=
  foldl (contextKeys_step ctx) ∅ visited.

Definition Config_contextKeys (config : Config) (ctx : Context) : gmap string (option value) :=
  Config_contextKeys_in (map_to_list (c_contextExtractors config)) ctx.

(* ===================================================================== *)
(** ** writer.go: LockedWriter *)
(* ===================================================================== *)

(** A value of the interface [WriteSyncer] that is not a [*LockedWriter]:
    what its methods answer.  [ws_Close] is [None] when the dynamic type
    has no [Close] method (it is not an [io.Closer]) and [Some r] when
    [Close()] returns [r]. *)
Record WriteSyncer : Type := mkWriteSyncer {
  ws_Write : string -> Z * option error;
  ws_Sync : option error;
  ws_Close : option (option error)
}.

(** [ErrClosed = fmt.Errorf("%w: stream closed", Error)] *)
Definition ErrClosed : error := fmt_Errorf "%w: stream closed" Error [].

(** The panic of the Go runtime on a method call through a nil interface
    or pointer. *)
Definition nil_dereference : error :=
  errors_New "runtime error: invalid memory address or nil pointer dereference".

(** [stream] is [None] for the nil interface; [mu] tells whether the
    mutex is held. *)
Record LockedWriter : Type := mkLockedWriter {
  stream : option WriteSyncer;
  mu : bool
}.

(** [func (s *LockedWriter) Write(p []byte) (n int, err error)].
    [s.mu.Lock()] on a held mutex waits; the branch for a nil stream
    returns without [s.mu.Unlock()]. *)
Definition LockedWriter_Write (s : LockedWriter) (p : string)
  : outcome (LockedWriter * (Z * option error)) :=
  if mu s then Blocks
  else
    match stream s with
    | None => Returns ({| stream := None; mu := true |}, (0, Some ErrClosed))
    | Some ws =>
      let '(n, err) := ws_Write ws p in
      Returns ({| stream := Some ws; mu := false |}, (n, err))
    end.

(** [func (s *LockedWriter) Close() (err error)]; the deferred unlock
    runs on both returns. *)
Definition LockedWriter_Close (s : LockedWriter) : outcome (LockedWriter * option error) :=
  if mu s then Blocks
  else
    match stream s with
    | None => Returns ({| stream := None; mu := false |}, None)
    | Some ws =>
      let err := match ws_Close ws with Some r => r | None => None end in
      Returns ({| stream := None; mu := false |}, err)
    end.

(** [func (s *LockedWriter) Sync() error] takes no lock. *)
Definition LockedWriter_Sync (s : LockedWriter) : outcome (LockedWriter * option error) :=
  match stream s with
  | None => Panics nil_dereference
  | Some ws => Returns (s, ws_Sync ws)
  end.

(** The calls one goroutine makes on a writer, and what each gives back. *)
Inductive writer_call : Type :=
| call_Write (p : string)
| call_Close
| call_Sync.

Inductive writer_reply : Type :=
| reply_Write (n : Z) (err : option error)
| reply_Close (err : option error)
| reply_Sync (err : option error).

Definition writer_step (s : LockedWriter) (c : writer_call) : outcome (LockedWriter * writer_reply) :=
  match c with
  | call_Write p =>
    match LockedWriter_Write s p with
    | Returns (s', (n, err)) => Returns (s', reply_Write n err)
    | Panics e => Panics e
    | Blocks => Blocks
    end
  | call_Close =>
    match LockedWriter_Close s with
    | Returns (s', err) => Returns (s', reply_Close err)
    | Panics e => Panics e
    | Blocks => Blocks
    end
  | call_Sync =>
    match LockedWriter_Sync s with
    | Returns (s', err) => Returns (s', reply_Sync err)
    | Panics e => Panics e
    | Blocks => Blocks
    end
  end.

(** A goroutine running the calls one after the other: the outcome of
    each call it reaches.  Nothing runs after a call that panics or
    blocks. *)
Fixpoint writer_run (s : LockedWriter) (calls : list writer_call) : list (outcome writer_reply) :=
  match calls with
  | [] => []
  | c :: rest =>
    match writer_step s c with
    | Returns (s', r) => Returns r :: writer_run s' rest
    | Panics e => [Panics e]
    | Blocks => [Blocks]
    end
  end.

(* ===================================================================== *)
(** ** writer.go: wrapping and the writers registry *)
(* ===================================================================== *)

(** An [io.Writer] handed to [wrap] or [put], by dynamic type: a
    [*LockedWriter] (an address), some other [WriteSyncer], or a writer
    with a [Write] method only. *)
Inductive io_Writer : Type :=
| writer_locked (a : nat)
| writer_syncer (ws : WriteSyncer)
| writer_plain (write : string -> Z * option error).

(** What [wrapWriter] returns: still an interface value, so either the
    [*LockedWriter] it was given or a plain [WriteSyncer]. *)
Inductive wrapped_writer : Type :=
| is_locked (a : nat)
| is_syncer (ws : WriteSyncer).

(** [syncerWrapper] embeds the [io.Writer] and adds a no-op [Sync]; the
    embedded interface promotes [Write] only. *)
Definition syncerWrapper (write : string -> Z * option error) : WriteSyncer :=
  {| ws_Write := write; ws_Sync := None; ws_Close := None |}.

(** [func wrapWriter(w io.Writer) WriteSyncer] *)
Definition wrapWriter (w : io_Writer) : wrapped_writer :=
  match w with
  | writer_locked a => is_locked a
  | writer_syncer ws => is_syncer ws
  | writer_plain write => is_syncer (syncerWrapper write)
  end.

(** [func wrapSyncer(writeSyncer WriteSyncer) (wrapped *LockedWriter)]:
    the heap of locked writers grows by one unless the argument is a
    [*LockedWriter] already. *)
Definition wrapSyncer (heap : list LockedWriter) (writeSyncer : wrapped_writer)
  : list LockedWriter * nat :=
  match writeSyncer with
  | is_locked a => (heap, a)
  | is_syncer ws => (heap ++ [{| stream := Some ws; mu := false |}], length heap)
  end.

(** [func wrap(writer io.Writer) (wrapped *LockedWriter)] *)
Definition wrap (heap : list LockedWriter) (writer : io_Writer) : list LockedWriter * nat :=
  wrapSyncer heap (wrapWriter writer).

(** The package variable [writers] with the locked writers it points to.
    Every method of the registry takes [registry.mu] and releases it
    before it returns, so the mutex is free between calls and is left
    out. *)
Record Writers : Type := mkWriters {
  lw_heap : list LockedWriter;
  reg_writers : gmap string nat
}.

(** [func newWritersRegistry() *WritersRegistry] *)
Definition newWritersRegistry : Writers := {| lw_heap := []; reg_writers := ∅ |}.

(** What the process finds outside: its standard streams, the result of
    creating a file, of dialling a network address, its pid and name. *)
Record Env : Type := mkEnv {
  os_Stdout : WriteSyncer;
  os_Stderr : WriteSyncer;
  os_Create : string -> WriteSyncer + error;
  net_Dial : string -> string -> (string -> Z * option error) + error;
  os_Getpid : Z;
  os_Args0 : string
}.

(** syslog.go, [func NewSyslogWriter(network, raddr string)]: [connect]
    dials and wraps the failure, the constructor wraps it again.  A
    [*SyslogWriter] has [Write] and [Sync] and no [Close]. *)
Definition NewSyslogWriter (env : Env) (network raddr : string) : WriteSyncer + error :=
  match net_Dial env network raddr with
  | inl conn_write => inl {| ws_Write := conn_write; ws_Sync := None; ws_Close := None |}
  | inr err =>
    inr (fmt_Errorf "%w: connect syslog socket: %v" Error
           [op_error (fmt_Errorf "%w: connect syslog: %v" Error [op_error err])])
  end.

(** [func (registry *WritersRegistry) registeredOutput(output string)
    (writer *LockedWriter, err error)]: the pair is a writer and no error
    ([inl]), or no writer and an error ([inr]). *)
Definition registeredOutput (env : Env) (registry : Writers) (output : string)
  : Writers * (nat + error) :=
  match reg_writers registry !! output with
  | Some writer => (registry, inl writer)
  | None =>
    let register (made : list LockedWriter * nat) : Writers * (nat + error) :=
      ({| lw_heap := fst made;
          reg_writers := <[output := snd made]> (reg_writers registry) |},
       inl (snd made)) in
    if String.eqb output StdOut then
      register (wrap (lw_heap registry) (writer_syncer (os_Stdout env)))
    else if String.eqb output StdErr then
      register (wrap (lw_heap registry) (writer_syncer (os_Stderr env)))
    else if String.eqb output SysLog then
      match NewSyslogWriter env "udp" "localhost:514" with
      | inr err =>
        (registry, inr (fmt_Errorf "%w: set syslog output: %v" Error [op_error err]))
      | inl fh => register (wrap (lw_heap registry) (writer_syncer fh))
      end
    else
      match os_Create env output with
      | inr err => (registry, inr err)
      | inl fh => register (wrap (lw_heap registry) (writer_syncer fh))
      end
  end.

(** [func Output(output string) (writer *LockedWriter, err error)] *)
Definition Output (env : Env) (registry : Writers) (output : string)
  : Writers * (nat + error) :=
  registeredOutput env registry output.

(** [func (registry *WritersRegistry) put(name WriterName, writer io.Writer)];
    [None] is a nil writer. *)
Definition WritersRegistry_put (registry : Writers) (name : string) (writer : option io_Writer)
  : Writers * option error :=
  match writer with
  | None => (registry, Some (fmt_Errorf "%w: nil writer" Error []))
  | Some w =>
    if (String.length name =? 0)%nat then
      (registry, Some (fmt_Errorf "%w: empty writer name" Error []))
    else
      match reg_writers registry !! name with
      | Some _ =>
        (registry, Some (fmt_Errorf "%w: writer %s already registered" Error [op_string name]))
      | None =>
        let made := wrap (lw_heap registry) w in
        ({| lw_heap := fst made; reg_writers := <[name := snd made]> (reg_writers registry) |},
         None)
      end
  end.

(** [func (registry *WritersRegistry) get(name WriterName)] *)
Definition WritersRegistry_get (registry : Writers) (name : string) : option nat * option error :=
  match reg_writers registry !! name with
  | Some writer => (Some writer, None)
  | None => (None, Some (fmt_Errorf "%w: writer %s unknown" Error [op_string name]))
  end.

(** [func (registry *WritersRegistry) del(name WriterName)] *)
Definition WritersRegistry_del (registry : Writers) (name : string) : Writers :=
  {| lw_heap := lw_heap registry; reg_writers := delete name (reg_writers registry) |}.


(* ===================================================================== *)
(** ** backend.go: the zap backend *)
(* ===================================================================== *)

Definition KeyTimestamp : Key := "ts".
Definition KeyLevel : Key := "level".
Definition KeyMessage : Key := "msg".
Definition KeyLogger : Key := "logger".
Definition KeyCaller : Key := "caller".
Definition KeyStackTrace : Key := "stacktrace".

Definition TimestampFormatConsole : string := "2006-01-02 15:04:05.000000".
(** [time.RFC3339Nano] *)
Definition TimestampFormatJSON : string := "2006-01-02T15:04:05.999999999Z07:00".

(** The levels of zapcore, an [int8]. *)
Definition zapcore_DebugLevel : Z := -1.
Definition zapcore_InfoLevel : Z := 0.
Definition zapcore_WarnLevel : Z := 1.
Definition zapcore_ErrorLevel : Z := 2.
Definition zapcore_PanicLevel : Z := 4.
Definition zapcore_FatalLevel : Z := 5.

(** The conversion of an [int] to [int8] keeps the low eight bits. *)
Definition to_int8 (z : Z) : Z := (z + 128) mod 256 - 128.

(** [func zapLevel(l Level) zapcore.Level] *)
Definition zapLevel (l : Level) : Z :=
  if l =? LevelTrace then zapcore_DebugLevel
  else if l =? LevelDebug then zapcore_DebugLevel
  else if l =? LevelInfo then zapcore_InfoLevel
  else if l =? LevelWarn then zapcore_WarnLevel
  else if l =? LevelError then zapcore_ErrorLevel
  else if l =? LevelPanic then zapcore_PanicLevel
  else if l =? LevelFatal then zapcore_FatalLevel
  else to_int8 l.

Inductive TimeEncoder : Type :=
| EpochTimeEncoder
| layout_TimeEncoder (layout : string).

Record EncoderConfig : Type := mkEncoderConfig {
  TimeKey : string;
  LevelKey : string;
  NameKey : string;
  CallerKey : string;
  MessageKey : string;
  StacktraceKey : string;
  EncodeTime : TimeEncoder;
  ConsoleSeparator : string
}.

Inductive Encoder : Type :=
| SyslogEncoder (cfg : EncoderConfig) (hostname : string) (pid : Z) (app : string)
| ConsoleEncoder (cfg : EncoderConfig)
| JSONEncoder (cfg : EncoderConfig).

Inductive zap_Option : Type :=
| zap_AddStacktrace (lvl : Z)
| zap_AddCaller
| zap_AddCallerSkip (skip : Z)
| zap_IncreaseLevel (lvl : Z).

(** A [*zap.Logger]: the core it was built from, the options applied to
    it, the names and the field sets added to it. *)
Record zap_Logger : Type := mkZapLogger {
  zap_encoder : Encoder;
  zap_syncer : nat;
  zap_level : Z;
  zap_options : list zap_Option;
  zap_names : list string;
  zap_fields : list (gmap string (option value))
}.

(** [_core] is [None] for the nil pointer.  [_mu] is taken and released
    around the two assignments of [Init] only: it is free between the
    steps of [Init_step] below, where the two assignments are one step,
    and is left out. *)
Record Backend : Type := mkBackend {
  _core : option zap_Logger;
  _config : Config
}.

(** [new(Backend)] *)
Definition new_Backend : Backend := {| _core := None; _config := zero_Config |}.

(** [func (backend *Backend) makeConfig(config Config) zapcore.EncoderConfig] *)
Definition Backend_makeConfig (config : Config) : EncoderConfig :=
  let timeEncoder :=
    if String.eqb (c_Output config) SysLog then EpochTimeEncoder
    else if String.eqb (c_Format config) FormatText then layout_TimeEncoder TimestampFormatConsole
    else layout_TimeEncoder TimestampFormatJSON in
  {| TimeKey := KeyTimestamp; LevelKey := KeyLevel; NameKey := KeyLogger;
     CallerKey := KeyCaller; MessageKey := KeyMessage; StacktraceKey := KeyStackTrace;
     EncodeTime := timeEncoder; ConsoleSeparator := " " |}.

(** [func (backend *Backend) makeEncoder(config Config) (zapcore.Encoder, error)] *)
Definition Backend_makeEncoder (env : Env) (config : Config) : Encoder + error :=
  let encoderConfig := Backend_makeConfig config in
  if String.eqb (c_Output config) SysLog then
    inl (SyslogEncoder encoderConfig "localhost" (os_Getpid env) (os_Args0 env))
  else if String.eqb (c_Format config) FormatText then inl (ConsoleEncoder encoderConfig)
  else if String.eqb (c_Format config) FormatJSON then inl (JSONEncoder encoderConfig)
  else inr (fmt_Errorf "%w: unknown format: %v" Error [op_string (c_Format config)]).

(** [func (backend *Backend) makeOptions(config Config) []zap.Option] *)
Definition Backend_makeOptions (config : Config) : list zap_Option :=
  (if String.eqb (c_Output config) StdOut then [zap_AddStacktrace zapcore_FatalLevel] else [])
  ++ (if (c_Level config =? LevelDebug) || (c_Level config =? LevelTrace)
      then [zap_AddCaller] else [])
  ++ [zap_AddCallerSkip 1].

(** [func (backend *Backend) Init(config Config) (err error)], threading
    the writers registry that [Output] consults. *)
Definition Backend_Init (env : Env) (registry : Writers) (backend : Backend) (config : Config)
  : Writers * Backend * option error :=
  match _core backend with
  | Some _ => (registry, backend, Some (fmt_Errorf "%w: already configured" Error []))
  | None =>
    match Backend_makeEncoder env config with
    | inr err => (registry, backend, Some err)
    | inl encoder =>
      match Output env registry (c_Output config) with
      | (registry', inl syncer) =>
        (registry',
         {| _core := Some {| zap_encoder := encoder; zap_syncer := syncer;
                             zap_level := zapLevel (c_Level config);
                             zap_options := Backend_makeOptions config;
                             zap_names := []; zap_fields := [] |};
            _config := config |},
         None)
      | (registry', inr err) => (registry', backend, Some err)
      end
    end
  end.

(** [func (backend *Backend) MustInit(config Config)] *)
Definition Backend_MustInit (env : Env) (registry : Writers) (backend : Backend) (config : Config)
  : outcome (Writers * Backend) :=
  match Backend_Init env registry backend config with
  | (registry', backend', None) => Returns (registry', backend')
  | (_, _, Some err) => Panics err
  end.

(** unnamed/part_003, [type zapLogger struct]. *)
Record zapLogger : Type := mkLogger {
  SugaredLogger : zap_Logger;
  level : Level
}.

(** [func (logger zapLogger) Level() Level] *)
Definition Logger_Level (logger : zapLogger) : Level := level logger.

(** [func (logger zapLogger) WithKeys(fields Keys) Logger] *)
Definition Logger_WithKeys (logger : zapLogger) (fields : gmap string (option value)) : zapLogger :=
  let z := SugaredLogger logger in
  {| SugaredLogger :=
       {| zap_encoder := zap_encoder z; zap_syncer := zap_syncer z; zap_level := zap_level z;
          zap_options := zap_options z; zap_names := zap_names z;
          zap_fields := zap_fields z ++ [fields] |};
     level := level logger |}.

(** [func (backend *Backend) newLogger(level Level, logger *zap.Logger) *zapLogger];
    [Sugar] on a nil logger panics. *)
Definition Backend_newLogger (lvl : Level) (logger : option zap_Logger) : outcome zapLogger :=
  match logger with
  | Some z => Returns {| SugaredLogger := z; level := lvl |}
  | None => Panics nil_dereference
  end.

(** [func (backend *Backend) newLoggerForLevels(levels ...Level) *zapLogger] *)
Definition Backend_newLoggerForLevels (env : Env) (registry : Writers) (backend : Backend)
    (levels : list Level) : outcome (Writers * Backend * zapLogger) :=
  let initialised :=
    match _core backend with
    | None => Backend_MustInit env registry backend NewConfig
    | Some _ => Returns (registry, backend)
    end in
  match initialised with
  | Returns (registry', backend') =>
    let lvl := match levels with l0 :: _ => l0 | [] => DefaultLevel end in
    match Backend_newLogger lvl (_core backend') with
    | Returns logger => Returns (registry', backend', logger)
    | Panics e => Panics e
    | Blocks => Blocks
    end
  | Panics e => Panics e
  | Blocks => Blocks
  end.

(** [func (backend *Backend) makeNamed(logger *zapLogger, name string) Logger] *)
Definition Backend_makeNamed (logger : zapLogger) (name : string) : zapLogger :=
  let z := SugaredLogger logger in
  {| SugaredLogger :=
       {| zap_encoder := zap_encoder z; zap_syncer := zap_syncer z; zap_level := zap_level z;
          zap_options := zap_options z; zap_names := zap_names z ++ [name];
          zap_fields := zap_fields z |};
     level := level logger |}.

(** [func (backend *Backend) NewLogger(levels ...Level) Logger] *)
Definition Backend_NewLogger (env : Env) (registry : Writers) (backend : Backend)
    (levels : list Level) : outcome (Writers * Backend * zapLogger) :=
  Backend_newLoggerForLevels env registry backend levels.

(** [func (backend *Backend) NewLoggerCtx(ctx context.Context, levels ...Level) Logger].
    The goroutine it starts only syncs the logger once the context is
    done; it changes nothing the caller gets back. *)
Definition Backend_NewLoggerCtx (env : Env) (registry : Writers) (backend : Backend)
    (ctx : Context) (levels : list Level) : outcome (Writers * Backend * zapLogger) :=
  Backend_newLoggerForLevels env registry backend levels.

(** [func (backend *Backend) NewNamedLogger(name string, levels ...Level) (logger Logger)]:
    the custom level of the name is appended after the arguments. *)
Definition Backend_NewNamedLogger (env : Env) (registry : Writers) (backend : Backend)
    (name : string) (levels : list Level) : outcome (Writers * Backend * zapLogger) :=
  let levels' :=
    match c_CustomLevels (_config backend) !! name with
    | Some custom => levels ++ [custom]
    | None => levels
    end in
  match Backend_newLoggerForLevels env registry backend levels' with
  | Returns (registry', backend', logger) =>
    Returns (registry', backend', Backend_makeNamed logger name)
  | Panics e => Panics e
  | Blocks => Blocks
  end.

(** [func (backend *Backend) NewNamedLoggerCtx(ctx, name, levels ...Level) Logger] *)
Definition Backend_NewNamedLoggerCtx (env : Env) (registry : Writers) (backend : Backend)
    (ctx : Context) (name : string) (levels : list Level)
  : outcome (Writers * Backend * zapLogger) :=
  Backend_NewNamedLogger env registry backend name levels.

(** The calls a client makes on one [Backend]. *)
Inductive backend_call : Type :=
| bc_Init (config : Config)
| bc_MustInit (config : Config)
| bc_NewLogger (levels : list Level)
| bc_NewLoggerCtx (ctx : Context) (levels : list Level)
| bc_NewNamedLogger (name : string) (levels : list Level)
| bc_NewNamedLoggerCtx (ctx : Context) (name : string) (levels : list Level).

(** The registry and the backend after a call.  The calls that make a
    logger always return ([Backend_NewNamedLogger_returns] below), so the
    other branch of [after] is never taken. *)
Definition backend_step (env : Env) (st : Writers * Backend) (c : backend_call)
  : Writers * Backend :=
  let '(registry, backend) := st in
  let after {A} (o : outcome (Writers * Backend * A)) : Writers * Backend :=
    match o with
    | Returns (registry', backend', _) => (registry', backend')
    | _ => st
    end in
  match c with
  | bc_Init config =>
    let '(registry', backend', _) := Backend_Init env registry backend config in
    (registry', backend')
  | bc_MustInit config =>
    let '(registry', backend', _) := Backend_Init env registry backend config in
    (registry', backend')
  | bc_NewLogger levels => after (Backend_NewLogger env registry backend levels)
  | bc_NewLoggerCtx ctx levels => after (Backend_NewLoggerCtx env registry backend ctx levels)
  | bc_NewNamedLogger name levels =>
    after (Backend_NewNamedLogger env registry backend name levels)
  | bc_NewNamedLoggerCtx ctx name levels =>
    after (Backend_NewNamedLoggerCtx env registry backend ctx name levels)
  end.

(** *** Calls of [Init] that overlap *)

(** Where a call of [Backend.Init] stands: before the test of [_core]
    (line 33); after the test found no core and before the encoder and
    the output are made (lines 36 to 45); with the encoder and the
    writer at hand, before the section of [_mu] that stores the core
    (lines 47 to 50); or returned, with its error. *)
Inductive Init_pc : Type :=
| pc_entered
| pc_building
| pc_storing (encoder : Encoder) (syncer : nat)
| pc_returned (err : option error).

(** One step of a call of [Init] with [config] on the backend and the
    registry that the goroutines share: the test of [_core], which is
    outside the section of [_mu]; the making of the encoder and the call
    of [Output], which takes the mutex of the registry; the section of
    [_mu] with its two assignments.  A call that returned stays as it
    is. *)
Definition Init_step (env : Env) (st : Writers * Backend) (call : Config * Init_pc)
  : (Writers * Backend) * (Config * Init_pc) :=
  let '(registry, backend) := st in
  let '(config, pc) := call in
  match pc with
  | pc_entered =>
    match _core backend with
    | Some _ => (st, (config, pc_returned (Some (fmt_Errorf "%w: already configured" Error []))))
    | None => (st, (config, pc_building))
    end
  | pc_building =>
    match Backend_makeEncoder env config with
    | inr err => (st, (config, pc_returned (Some err)))
    | inl encoder =>
      match Output env registry (c_Output config) with
      | (registry', inl syncer) => ((registry', backend), (config, pc_storing encoder syncer))
      | (registry', inr err) => ((registry', backend), (config, pc_returned (Some err)))
      end
    end
  | pc_storing encoder syncer =>
    ((registry,
      {| _core := Some {| zap_encoder := encoder; zap_syncer := syncer;
                          zap_level := zapLevel (c_Level config);
                          zap_options := Backend_makeOptions config;
                          zap_names := []; zap_fields := [] |};
         _config := config |}),
     (config, pc_returned None))
  | pc_returned _ => (st, call)
  end.

(** The goroutine [i] takes its next step; a number that names no
    goroutine changes nothing. *)
Definition Init_schedule_step (env : Env)
    (s : (Writers * Backend) * list (Config * Init_pc)) (i : nat)
  : (Writers * Backend) * list (Config * Init_pc) :=
  match snd s !! i with
  | None => s
  | Some call =>
    let '(st', call') := Init_step env (fst s) call in (st', <[i := call']> (snd s))
  end.

(** Calls of [Init] on one backend, one goroutine for each of
    [configs], taking their steps in the order of [schedule]. *)
Definition Init_interleaved (env : Env) (st : Writers * Backend) (configs : list Config)
    (schedule : list nat) : (Writers * Backend) * list (Config * Init_pc) :=
  foldl (Init_schedule_step env) (st, map (fun config => (config, pc_entered)) configs) schedule.

(* ===================================================================== *)
(** ** logging.go: the process-wide session *)
(* ===================================================================== *)

(** The package variables [writers], [usingBackend], [initDone] and
    [useConfig], with the heap of the backends made so far.  The mutex
    [mu] is held only inside the critical sections below, each of which
    is one step. *)
Record World : Type := mkWorld {
  writers : Writers;
  backends : list Backend;
  usingBackend : option nat;
  initDone : bool;
  useConfig : Config
}.

(** The state of the package when the process starts. *)
Definition initial_World : World :=
  {| writers := newWritersRegistry; backends := []; usingBackend := None;
     initDone := false; useConfig := NewConfig |}.

(** [func setBackend(newBackend *Backend)] *)
Definition setBackend (w : World) (newBackend : option nat) : World :=
  {| writers := writers w; backends := backends w;
     usingBackend := newBackend; initDone := false; useConfig := useConfig w |}.

(** [func Init(opts ...Option) (err error)], as the worlds other
    goroutines can see while it runs, one per step: after
    [new(Backend)], after [setBackend], after the registry was consulted
    by [backend.Init], after [backend.Init] stored its core, and after
    the last critical section.  The error of [Validate] is the one for
    stdpp's enumeration of [CustomLevels]. *)
Definition Init_trace (env : Env) (w : World) (opts : list Option) : list World * option error :=
  let config := Config_Apply NewConfig opts in
  match Config_Validate config with
  | Some err => ([], Some err)
  | None =>
    let b := length (backends w) in
    let w1 := {| writers := writers w; backends := backends w ++ [new_Backend];
                 usingBackend := usingBackend w; initDone := initDone w;
                 useConfig := useConfig w |} in
    let w2 := setBackend w1 (Some b) in
    let '(registry', backend', err) := Backend_Init env (writers w2) new_Backend config in
    let w3 := {| writers := registry'; backends := backends w2;
                 usingBackend := usingBackend w2; initDone := initDone w2;
                 useConfig := useConfig w2 |} in
    let w4 := {| writers := registry'; backends := <[b := backend']> (backends w2);
                 usingBackend := usingBackend w2; initDone := initDone w2;
                 useConfig := useConfig w2 |} in
    match err with
    | Some err => ([w1; w2; w3; w4], Some (fmt_Errorf "%w: backend: %v" Error [op_error err]))
    | None =>
      let w5 := {| writers := writers w4; backends := backends w4;
                   usingBackend := usingBackend w4; initDone := true;
                   useConfig := config |} in
      ([w1; w2; w3; w4; w5], None)
    end
  end.

(** [Init] as a function of the world: where the trace ends. *)
Definition Init (env : Env) (w : World) (opts : list Option) : World * option error :=
  let '(trace, err) := Init_trace env w opts in (List.last trace w, err).

(** [func MustInit(opts ...Option)] *)
Definition MustInit (env : Env) (w : World) (opts : list Option) : outcome World :=
  match Init env w opts with
  | (w', None) => Returns w'
  | (_, Some err) => Panics err
  end.

(** A method of the backend at address [b], called through the pointer. *)
Definition call_backend (w : World) (b : nat)
    (method : Writers -> Backend -> outcome (Writers * Backend * zapLogger))
  : outcome (World * zapLogger) :=
  match backends w !! b with
  | None => Panics nil_dereference
  | Some backend =>
    match method (writers w) backend with
    | Returns (registry', backend', logger) =>
      Returns ({| writers := registry'; backends := <[b := backend']> (backends w);
                  usingBackend := usingBackend w; initDone := initDone w;
                  useConfig := useConfig w |}, logger)
    | Panics e => Panics e
    | Blocks => Blocks
    end
  end.

Definition attach_keys (keys : gmap string (option value))
    (o : outcome (World * zapLogger)) : outcome (World * zapLogger) :=
  match o with
  | Returns (w', logger) => Returns (w', Logger_WithKeys logger keys)
  | Panics e => Panics e
  | Blocks => Blocks
  end.

(** [func NewLogger(levels ...Level) Logger] *)
Definition NewLogger (env : Env) (w : World) (levels : list Level) : outcome (World * zapLogger) :=
  let backend := usingBackend w in
  let initialized := initDone w in
  match backend with
  | None => Panics (fmt_Errorf "%w: set backend first" Error [])
  | Some b =>
    if negb initialized then Panics (fmt_Errorf "%w: init first" Error [])
    else call_backend w b (fun r bk => Backend_NewLogger env r bk levels)
  end.

(** [func NewLoggerCtx(ctx context.Context, levels ...Level) Logger] *)
Definition NewLoggerCtx (env : Env) (w : World) (ctx : Context) (levels : list Level)
  : outcome (World * zapLogger) :=
  let backend := usingBackend w in
  let initialized := initDone w in
  let cfg := useConfig w in
  match backend with
  | None => Panics (fmt_Errorf "%w: set backend first" Error [])
  | Some b =>
    if negb initialized then Panics (fmt_Errorf "%w: init first" Error [])
    else attach_keys (Config_contextKeys cfg ctx)
           (call_backend w b (fun r bk => Backend_NewLoggerCtx env r bk ctx levels))
  end.

(** [func NewNamedLogger(name string, levels ...Level) Logger] *)
Definition NewNamedLogger (env : Env) (w : World) (name : string) (levels : list Level)
  : outcome (World * zapLogger) :=
  let backend := usingBackend w in
  let initialized := initDone w in
  let config := useConfig w in
  match backend with
  | None => Panics (fmt_Errorf "%w: set backend first" Error [])
  | Some b =>
    if negb initialized then Panics (fmt_Errorf "%w: init first" Error [])
    else call_backend w b
           (fun r bk => Backend_NewNamedLogger env r bk name
                          [Config_levelForNamed config name levels])
  end.

(** [func NewNamedLoggerCtx(ctx context.Context, name string, levels ...Level) Logger] *)
Definition NewNamedLoggerCtx (env : Env) (w : World) (ctx : Context) (name : string)
    (levels : list Level) : outcome (World * zapLogger) :=
  let backend := usingBackend w in
  let initialized := initDone w in
  let cfg := useConfig w in
  match backend with
  | None => Panics (fmt_Errorf "%w: set backend first" Error [])
  | Some b =>
    if negb initialized then Panics (fmt_Errorf "%w: init first" Error [])
    else attach_keys (Config_contextKeys cfg ctx)
           (call_backend w b
              (fun r bk => Backend_NewNamedLoggerCtx env r bk ctx name
                             [Config_levelForNamed cfg name levels]))
  end.

(** A backend that finished [Init]: its core is set. *)
Definition is_Ready (backend : Backend) : Prop := _core backend <> None.



(* ===================================================================== *)
(** ** Sample values used by the examples below *)
(* ===================================================================== *)

(** A configuration at level debug with the custom level warn for [svc]. *)
Definition svc_config : Config :=
  {| c_Level := LevelDebug; c_Format := FormatText; c_Output := StdOut;
     c_CustomLevels := {[ "svc"%string := LevelWarn ]};
     c_contextExtractors := made_map ∅ |}.

(** A configuration that fails every check of [Validate]. *)
Definition invalid_config : Config :=
  {| c_Level := 99; c_Format := "xml"; c_Output := "";
     c_CustomLevels := {[ "svc"%string := -11 ]};
     c_contextExtractors := nil_map |}.

(** An extractor whose key depends on the context: the tenant when the
    context carries one, and a marker for its absence otherwise.
<<
    func(ctx context.Context) (logging.Key, any) {
        if k, v := logging.Key("tenant").Extractor()(ctx); v != nil {
            return k, v
        }
        return "anonymous", nil
    }
>> *)
Definition tenant_extractor : ContextExtractorFunc :=
  fun ctx =>
    let '(k, v) := Key_Extractor "tenant" ctx in
    match v with
    | Some _ => (k, v)
    | None => ("anonymous"%string, None)
    end.

Definition tenant_config : Config :=
  match WithContextExtractors [tenant_extractor] NewConfig with
  | Returns config => config
  | _ => NewConfig
  end.

Definition tenant_ctx : Context :=
  Key_SetToCtx "tenant" context_Background (Some (v_int 7)).

(** A stream that takes every byte it is given. *)
Definition quiet_stream : WriteSyncer :=
  {| ws_Write := fun p => (Z.of_nat (String.length p), None);
     ws_Sync := None;
     ws_Close := Some None |}.

(** An environment where files can be created and syslog answers. *)
Definition quiet_env : Env :=
  {| os_Stdout := quiet_stream; os_Stderr := quiet_stream;
     os_Create := fun _ => inl quiet_stream;
     net_Dial := fun _ _ => inl (ws_Write quiet_stream);
     os_Getpid := 1; os_Args0 := "app" |}.

(** The error of [Backend.Init] on a backend that has its core. *)
Definition already_configured : error := fmt_Errorf "%w: already configured" Error [].

(** A backend initialised with [svc_config], and the registry after it. *)
Definition svc_registry : Writers :=
  fst (fst (Backend_Init quiet_env newWritersRegistry new_Backend svc_config)).

Definition svc_backend : Backend :=
  snd (fst (Backend_Init quiet_env newWritersRegistry new_Backend svc_config)).

(** The values the factory functions panic with. *)
Definition set_backend_first : error := fmt_Errorf "%w: set backend first" Error [].
Definition init_first : error := fmt_Errorf "%w: init first" Error [].


(* ===================================================================== *)
(** ** level.go: Level.String *)
(* ===================================================================== *)

(** [strconv.Itoa]: the decimal digits, with a minus sign for a negative
    number; stdpp's [pretty] on [Z] writes the same text. *)
Definition strconv_Itoa (z : Z) : string := pretty z.

(** [func (l Level) String() string] *)
Definition Level_String (l : Level) : string :=
  if l =? LevelTrace then levelTraceName
  else if l =? LevelDebug then levelDebugName
  else if l =? LevelInfo then levelInfoName
  else if l =? LevelWarn then levelWarnName
  else if l =? LevelError then levelErrorName
  else if l =? LevelPanic then levelPanicName
  else if l =? LevelFatal then levelFatalName
  else levelUnknownName +:+ strconv_Itoa l.

(* ===================================================================== *)
(** ** context.go and config.go: the stored configuration *)
(* ===================================================================== *)

(** [func CurrentConfig() *Config] *)
Definition CurrentConfig (w : World) : Config := useConfig w.

(** [func KeysCtx(ctx context.Context) Keys], for stdpp's enumeration of
    the extractors. *)
Definition KeysCtx (w : World) (ctx : Context) : gmap string (option value) :=
  Config_contextKeys (useConfig w) ctx.

(** The calls on a backend that make a logger. *)
Definition makes_logger (c : backend_call) : bool :=
  match c with
  | bc_Init _ | bc_MustInit _ => false
  | _ => true
  end.

(* ===================================================================== *)
(** ** unnamed/part_003: the methods of zapLogger *)
(* ===================================================================== *)

(** [func (logger zapLogger) IsEnabledForLevel(level Level) bool] *)
Definition Logger_IsEnabledForLevel (logger : zapLogger) (lvl : Level) : bool :=
  Level_IsEnabledForLevel (level logger) lvl.

(** [WithOptions] of a zap logger: the options are added to the clone. *)
Definition zap_WithOptions (z : zap_Logger) (opts : list zap_Option) : zap_Logger :=
  {| zap_encoder := zap_encoder z; zap_syncer := zap_syncer z; zap_level := zap_level z;
     zap_options := zap_options z ++ opts; zap_names := zap_names z;
     zap_fields := zap_fields z |}.

(** [func (logger zapLogger) WithLevel(level Level) Logger]: the
    receiver is a copy; its level is set before the test. *)
Definition Logger_WithLevel (logger : zapLogger) (lvl : Level) : zapLogger :=
  let logger1 := {| SugaredLogger := SugaredLogger logger; level := lvl |} in
  if negb (Logger_IsEnabledForLevel logger1 lvl) then
    {| SugaredLogger :=
         zap_WithOptions (SugaredLogger logger1) [zap_IncreaseLevel (zapLevel lvl)];
       level := level logger1 |}
  else logger1.

(** [func (logger zapLogger) WithKey(key string, value any) Logger] *)
Definition Logger_WithKey (logger : zapLogger) (key : string) (v : option value) : zapLogger :=
  let z := SugaredLogger logger in
  {| SugaredLogger :=
       {| zap_encoder := zap_encoder z; zap_syncer := zap_syncer z; zap_level := zap_level z;
          zap_options := zap_options z; zap_names := zap_names z;
          zap_fields := zap_fields z ++ [{[ key := v ]}] |};
     level := level logger |}.

(** The logging methods; each formatted variant ([Tracef], ...) has the
    test of its plain method. *)
Inductive log_call : Type :=
| log_Trace
| log_Debug
| log_Info
| log_Warn
| log_Error
| log_Fatal.

(** The level a logging method stands for. *)
Definition log_call_level (c : log_call) : Level :=
  match c with
  | log_Trace => LevelTrace
  | log_Debug => LevelDebug
  | log_Info => LevelInfo
  | log_Warn => LevelWarn
  | log_Error => LevelError
  | log_Fatal => LevelFatal
  end.

(** What a logging method hands to the sugared logger: the zap level of
    the method it calls there, or nothing when the test of the logger's
    level fails.  [Trace] calls [Debug]; [Error] and [Fatal] have no test. *)
Definition Logger_log (logger : zapLogger) (c : log_call) : option Z :=
  match c with
  | log_Trace =>
    if Logger_IsEnabledForLevel logger LevelTrace then Some zapcore_DebugLevel else None
  | log_Debug =>
    if Logger_IsEnabledForLevel logger LevelDebug then Some zapcore_DebugLevel else None
  | log_Info =>
    if Logger_IsEnabledForLevel logger LevelInfo then Some zapcore_InfoLevel else None
  | log_Warn =>
    if Logger_IsEnabledForLevel logger LevelWarn then Some zapcore_WarnLevel else None
  | log_Error => Some zapcore_ErrorLevel
  | log_Fatal => Some zapcore_FatalLevel
  end.

(* ===================================================================== *)
(** ** unnamed/part_000: the Default logger *)
(* ===================================================================== *)

(** [logger] is [None] for the nil interface; [d_mu] tells whether the
    mutex is held. *)
Record Default : Type := mkDefault {
  d_mu : bool;
  logger : option zapLogger
}.

(** [func (l *Default) Level() Level] *)
Definition Default_Level (l : Default) : Level := DefaultLevel.

(** [func (l *Default) checkInnerLogger()]: the unlock is not deferred,
    so a panic of [NewLogger] leaves the mutex held; the panic is all the
    outcome tells. *)
Definition Default_checkInnerLogger (env : Env) (w : World) (l : Default)
  : outcome (World * Default) :=
  if d_mu l then Blocks
  else
    match logger l with
    | Some _ => Returns (w, l)
    | None =>
      match NewLogger env w [c_Level (useConfig w)] with
      | Returns (w', made) => Returns (w', {| d_mu := false; logger := Some made |})
      | Panics e => Panics e
      | Blocks => Blocks
      end
    end.

(** [func (l *Default) IsEnabledForLevel(level Level) bool] *)
Definition Default_IsEnabledForLevel (env : Env) (w : World) (l : Default) (lvl : Level)
  : outcome (World * Default * bool) :=
  match Default_checkInnerLogger env w l with
  | Returns (w', l') =>
    match logger l' with
    | Some inner => Returns (w', l', Logger_IsEnabledForLevel inner lvl)
    | None => Panics nil_dereference
    end
  | Panics e => Panics e
  | Blocks => Blocks
  end.

(** [func (l *Default) WithLevel(level Level) Logger] *)
Definition Default_WithLevel (env : Env) (w : World) (l : Default) (lvl : Level)
  : outcome (World * Default * zapLogger) :=
  match Default_checkInnerLogger env w l with
  | Returns (w', l') =>
    match logger l' with
    | Some inner => Returns (w', l', Logger_WithLevel inner lvl)
    | None => Panics nil_dereference
    end
  | Panics e => Panics e
  | Blocks => Blocks
  end.

(** [func (l *Default) WithName(name string) Logger] *)
Definition Default_WithName (env : Env) (w : World) (l : Default) (name : string)
  : outcome (World * Default * zapLogger) :=
  match Default_checkInnerLogger env w l with
  | Returns (w', l') =>
    match NewNamedLogger env w' name [c_Level (useConfig w')] with
    | Returns (w'', named) => Returns (w'', l', named)
    | Panics e => Panics e
    | Blocks => Blocks
    end
  | Panics e => Panics e
  | Blocks => Blocks
  end.

(** What a plain logging method of [Default] ([Trace], [Debug], ...)
    hands to the sugared logger of the inner logger. *)
Definition Default_log (env : Env) (w : World) (l : Default) (c : log_call)
  : outcome (World * Default * option Z) :=
  match Default_checkInnerLogger env w l with
  | Returns (w', l') =>
    match logger l' with
    | Some inner => Returns (w', l', Logger_log inner c)
    | None => Panics nil_dereference
    end
  | Panics e => Panics e
  | Blocks => Blocks
  end.

(* ===================================================================== *)
(** ** syslog.go: SyslogWriter *)
(* ===================================================================== *)

(** [conn] is [None] for the nil interface and otherwise what [Write] on
    the connection answers.  The mutex is taken and released inside
    [connect] and [Disconnect] only and is left out. *)
Record SyslogWriter : Type := mkSyslogWriter {
  network : string;
  raddr : string;
  conn : option (string -> Z * option error)
}.

(** [func (s *SyslogWriter) Disconnect()] *)
Definition SyslogWriter_Disconnect (s : SyslogWriter) : SyslogWriter :=
  match conn s with
  | None => s
  | Some _ => {| network := network s; raddr := raddr s; conn := None |}
  end.

(** [func (s *SyslogWriter) connect() (err error)] *)
Definition SyslogWriter_connect (env : Env) (s : SyslogWriter) : SyslogWriter * option error :=
  let s1 := match conn s with Some _ => SyslogWriter_Disconnect s | None => s end in
  match net_Dial env (network s1) (raddr s1) with
  | inr err => (s1, Some (fmt_Errorf "%w: connect syslog: %v" Error [op_error err]))
  | inl c => ({| network := network s1; raddr := raddr s1; conn := Some c |}, None)
  end.

(** [func NewSyslogWriter(network, raddr string) (s *SyslogWriter, err error)],
    with the writer itself rather than its view as a [WriteSyncer]. *)
Definition new_SyslogWriter (env : Env) (net addr : string) : SyslogWriter + error :=
  match SyslogWriter_connect env {| network := net; raddr := addr; conn := None |} with
  | (_, Some err) => inr (fmt_Errorf "%w: connect syslog socket: %v" Error [op_error err])
  | (s, None) => inl s
  end.

(** [func (s *SyslogWriter) Write(p []byte) (n int, err error)] *)
Definition SyslogWriter_Write (env : Env) (s : SyslogWriter) (p : string)
  : outcome (SyslogWriter * (Z * option error)) :=
  let connected :=
    match conn s with
    | None => SyslogWriter_connect env s
    | Some _ => (s, None)
    end in
  match connected with
  | (s1, Some err) => Returns (s1, (0, Some err))
  | (s1, None) =>
    match conn s1 with
    | Some c => Returns (s1, c p)
    | None => Panics nil_dereference
    end
  end.

(** [func (s *SyslogWriter) Sync() error] *)
Definition SyslogWriter_Sync (s : SyslogWriter) : option error := None.

(* ===================================================================== *)
(** ** More sample values *)
(* ===================================================================== *)

(** An environment where no file can be created and nobody answers. *)
Definition deaf_env : Env :=
  {| os_Stdout := quiet_stream; os_Stderr := quiet_stream;
     os_Create := fun _ => inr (errors_New "open: permission denied");
     net_Dial := fun _ _ => inr (errors_New "dial udp: connection refused");
     os_Getpid := 1; os_Args0 := "app" |}.

(** The world after [Init] with the defaults in [quiet_env]. *)
Definition ready_World : World := fst (Init quiet_env initial_World []).

(** A context with a request id and a user that is nil. *)
Definition request_ctx : Context :=
  Key_SetToCtx "user" (Key_SetToCtx "request" context_Background (Some (v_int 42))) None.

(** A zap logger as [Backend.Init] builds it for the defaults, and a
    logger at level warn over it. *)
Definition quiet_zap : zap_Logger :=
  {| zap_encoder := ConsoleEncoder (Backend_makeConfig NewConfig); zap_syncer := 0%nat;
     zap_level := zapLevel LevelInfo; zap_options := Backend_makeOptions NewConfig;
     zap_names := []; zap_fields := [] |}.

Definition warn_logger : zapLogger := {| SugaredLogger := quiet_zap; level := LevelWarn |}.

(* ===================================================================== *)
(** * Properties *)
(* ===================================================================== *)

(** ** Levels and their text form *)

Lemma is_defined_level_In (l : Z) : is_defined_level l = true <-> In l defined_levels.
Proof.
  unfold is_defined_level, defined_levels, LevelTrace, LevelDebug, LevelInfo, LevelWarn,
    LevelError, LevelPanic, LevelFatal; simpl.
  rewrite !orb_true_iff, !Z.eqb_eq. intuition lia.
Qed.

Lemma is_defined_level_false (l : Z) : is_defined_level l = false <-> ~ In l defined_levels.
Proof.
  rewrite <- is_defined_level_In. destruct (is_defined_level l); split; congruence.
Qed.

Lemma MarshalText_defined (l : Z) (text : string) (err : option error) :
  Level_MarshalText l = (Some text, err) ->
  In l defined_levels /\ In text canonical_names /\ err = None.
Proof.
  unfold Level_MarshalText, defined_levels, canonical_names.
  repeat match goal with
  | |- context [Z.eqb l ?c] =>
    let E := fresh "E" in
    destruct (Z.eqb l c) eqn:E;
    [apply Z.eqb_eq in E; intros [= <- <-]; rewrite E; simpl; tauto |]
  end.
  discriminate.
Qed.

Section LevelTextFacts.

Variable unicode_ToLower : string -> string.

Lemma strings_ToLower_ascii (s : string) :
  all_ascii s = true -> strings_ToLower unicode_ToLower s = map_ascii_lower s.
Proof. intros H. unfold strings_ToLower. now rewrite H. Qed.

Lemma UnmarshalText_known (v : Z) (text name : string) (l : Z) :
  In (name, l) level_names -> strings_ToLower unicode_ToLower text = name ->
  Level_UnmarshalText unicode_ToLower (Some v) text = (Some l, None).
Proof.
  intros Hin Hlow. unfold Level_UnmarshalText. rewrite Hlow.
  unfold level_names in Hin. simpl in Hin.
  repeat (destruct Hin as [Hin | Hin]; [injection Hin as <- <-; reflexivity |]).
  contradiction.
Qed.

Lemma UnmarshalText_unknown (v : Z) (text : string) :
  ~ In (strings_ToLower unicode_ToLower text) (map fst level_names) ->
  Level_UnmarshalText unicode_ToLower (Some v) text
  = (Some v, Some (fmt_Errorf "%w: unrecognized level: %q" Error [op_string text])).
Proof.
  intros Hnot. unfold Level_UnmarshalText.
  set (s := strings_ToLower unicode_ToLower text) in *.
  unfold case_of, levelTraceName, levelDebugName, levelInfoName, levelWarnName,
    levelErrorName, levelPanicName, levelFatalName. cbn [existsb].
  simpl in Hnot.
  repeat match goal with
  | |- context [String.eqb s ?n] =>
    let E := fresh "E" in
    destruct (String.eqb s n) eqn:E;
    [apply String.eqb_eq in E; exfalso; apply Hnot; rewrite E; tauto | cbn [orb]]
  end.
  reflexivity.
Qed.

Lemma aliases_are_names (alias : string) (l : Z) :
  In (alias, l) level_aliases -> In (alias, l) level_names.
Proof.
  unfold level_aliases, level_names. simpl.
  intros H. repeat (destruct H as [H | H]; [rewrite <- H; tauto |]). contradiction.
Qed.

(** C8. For each of the seven levels [MarshalText] gives a text that
    [UnmarshalText] reads back as that level; every short alias (t, trc,
    d, dbg, i, inf, w, wrn, warning, e, err, p, f) is read as its level
    whatever the case of its letters; [MarshalText] gives nothing but
    the seven lowercase long names, and only for the seven levels; and
    [UnmarshalText] fails with the unrecognized-level error, leaving the
    level as it was, for every text whose lowercase form is not a long
    name or an alias. *)
Theorem Level_text_round_trip :
  (forall l, In l defined_levels ->
     exists text, Level_MarshalText l = (Some text, None)
                  /\ forall v, Level_UnmarshalText unicode_ToLower (Some v) text = (Some l, None))
  /\ (forall alias l text v,
        In (alias, l) level_aliases ->
        (strings_ToLower unicode_ToLower text = alias
         \/ (all_ascii text = true /\ map_ascii_lower text = alias)) ->
        In l defined_levels
        /\ Level_UnmarshalText unicode_ToLower (Some v) text = (Some l, None))
  /\ (forall l text err,
        Level_MarshalText l = (Some text, err) ->
        In l defined_levels /\ In text canonical_names
        /\ map_ascii_lower text = text /\ err = None)
  /\ (forall l, ~ In l defined_levels -> exists err,
        Level_MarshalText l = (None, Some err) /\ is_module_error err = true)
  /\ (forall text v,
        ~ In (strings_ToLower unicode_ToLower text) (map fst level_names) ->
        Level_UnmarshalText unicode_ToLower (Some v) text
        = (Some v, Some (fmt_Errorf "%w: unrecognized level: %q" Error [op_string text]))).
Proof.
  split; [| split; [| split; [| split]]].
  - intros l Hl. unfold defined_levels in Hl. simpl in Hl.
    repeat (destruct Hl as [Hl | Hl];
            [subst l; eexists; split; [reflexivity | intros v; reflexivity] |]).
    contradiction.
  - intros alias l text v Hin Hlow.
    assert (Hs : strings_ToLower unicode_ToLower text = alias).
    { destruct Hlow as [H | [Ha H]]; [exact H |].
      now rewrite strings_ToLower_ascii. }
    split.
    + unfold level_aliases in Hin. simpl in Hin.
      repeat (destruct Hin as [Hin | Hin];
              [injection Hin as _ <-; unfold defined_levels; simpl; tauto |]).
      contradiction.
    + apply UnmarshalText_known with (name := alias); [now apply aliases_are_names | exact Hs].
  - intros l text err H.
    destruct (MarshalText_defined l text err H) as (Hl & Ht & He).
    repeat split; try assumption.
    unfold canonical_names in Ht. simpl in Ht.
    repeat (destruct Ht as [Ht | Ht]; [subst text; reflexivity |]). contradiction.
  - intros l Hl. apply is_defined_level_false in Hl.
    unfold is_defined_level in Hl. rewrite !orb_false_iff in Hl.
    destruct Hl as ((((((H0 & H1) & H2) & H3) & H4) & H5) & H6).
    unfold Level_MarshalText. rewrite H0, H1, H2, H3, H4, H5, H6.
    eexists. split; reflexivity.
  - intros text v. apply UnmarshalText_unknown.
Qed.

End LevelTextFacts.

(** The round trip on [LevelWarn], the alias [WRN] and a text that is no
    level, with the identity standing for the Unicode path. *)
Lemma Level_text_round_trip_witness :
  Level_UnmarshalText (fun s => s) (Some LevelTrace) "WRN" = (Some LevelWarn, None)
  /\ Level_UnmarshalText (fun s => s) (Some LevelInfo) "any"
     = (Some LevelInfo, Some (fmt_Errorf "%w: unrecognized level: %q" Error [op_string "any"])).
Proof.
  destruct (Level_text_round_trip (fun s => s)) as (_ & Halias & _ & _ & Hunknown).
  split.
  - apply (Halias "wrn"%string LevelWarn "WRN"%string LevelTrace).
    + unfold level_aliases; simpl; tauto.
    + right. split; reflexivity.
  - apply (Hunknown "any"%string LevelInfo).
    vm_compute. intros H.
    repeat (destruct H as [H | H]; [discriminate H |]). exact H.
Defined.

(** ** Config *)

(** C3. [levelForNamed] gives the custom level of the name whenever one
    is registered, whatever levels are passed; without one it gives the
    first of the levels passed, and [Config.Level] when none is passed. *)
Theorem levelForNamed_precedence (config : Config) (name : string) (levels : list Z) :
  (forall custom, c_CustomLevels config !! name = Some custom ->
     Config_levelForNamed config name levels = custom)
  /\ (forall l0 rest, c_CustomLevels config !! name = None -> levels = l0 :: rest ->
        Config_levelForNamed config name levels = l0)
  /\ (c_CustomLevels config !! name = None -> levels = [] ->
        Config_levelForNamed config name levels = c_Level config).
Proof.
  unfold Config_levelForNamed. repeat split.
  - intros custom ->. reflexivity.
  - intros l0 rest -> ->. reflexivity.
  - intros -> ->. reflexivity.
Qed.

Lemma levelForNamed_precedence_witness :
  Config_levelForNamed svc_config "svc" [LevelTrace] = LevelWarn
  /\ Config_levelForNamed svc_config "other" [LevelTrace; LevelError] = LevelTrace
  /\ Config_levelForNamed svc_config "other" [] = LevelDebug.
Proof.
  split; [| split].
  - apply (levelForNamed_precedence svc_config "svc" [LevelTrace]). reflexivity.
  - apply (proj1 (proj2 (levelForNamed_precedence svc_config "other" [LevelTrace; LevelError]))
             LevelTrace [LevelError]); reflexivity.
  - apply (levelForNamed_precedence svc_config "other" []); reflexivity.
Defined.

Lemma Format_Validate_ok (f : string) :
  Format_Validate f = None <-> f = FormatText \/ f = FormatJSON.
Proof.
  unfold Format_Validate.
  destruct (String.eqb f FormatText) eqn:Et; [apply String.eqb_eq in Et; tauto |].
  destruct (String.eqb f FormatJSON) eqn:Ej; [apply String.eqb_eq in Ej; tauto |].
  apply String.eqb_neq in Et, Ej. split; [discriminate | tauto].
Qed.

Lemma Format_Validate_marker (f : string) (err : error) :
  Format_Validate f = Some err -> is_module_error err = true.
Proof.
  unfold Format_Validate.
  destruct (String.eqb f FormatText); [discriminate |].
  destruct (String.eqb f FormatJSON); [discriminate |].
  intros [= <-]. reflexivity.
Qed.

(** The loop stops at the first entry with a level that is not defined. *)
Lemma validate_custom_levels_None (visited : list (string * Z)) :
  validate_custom_levels visited = None
  <-> forall name lvl, In (name, lvl) visited -> In lvl defined_levels.
Proof.
  induction visited as [| [k lvl] rest IH]; simpl.
  - split; [intros _ ? ? [] | reflexivity].
  - destruct (is_defined_level lvl) eqn:E.
    + rewrite IH. apply is_defined_level_In in E. split.
      * intros H name l [[= <- <-] | Hin]; [exact E | exact (H name l Hin)].
      * intros H name l Hin. apply (H name l). now right.
    + apply is_defined_level_false in E. split; [discriminate |].
      intros H. exfalso. apply E, (H k lvl). now left.
Qed.

Lemma validate_custom_levels_Some (visited : list (string * Z)) (err : error) :
  validate_custom_levels visited = Some err ->
  exists name lvl,
    In (name, lvl) visited /\ ~ In lvl defined_levels
    /\ err = fmt_Errorf "%w: unknown level %v: `%v`" Error [op_string name; op_int lvl].
Proof.
  induction visited as [| [k lvl] rest IH]; simpl; [discriminate |].
  destruct (is_defined_level lvl) eqn:E.
  - intros H. destruct (IH H) as (name & l & Hin & Hbad & ->).
    exists name, l. auto.
  - intros [= <-]. exists k, lvl. apply is_defined_level_false in E. auto.
Qed.

Lemma ranges_over_In {V : Type} (visited : list (string * V)) (m : gmap string V) k v :
  ranges_over visited m -> (In (k, v) visited <-> m !! k = Some v).
Proof.
  unfold ranges_over. intros Hp.
  rewrite <- list_elem_of_In, Hp. apply elem_of_map_to_list.
Qed.

(** C5. [Validate] returns an error exactly when [Output] is empty, or
    [Format] is neither text nor json, or [Level] is none of the seven
    levels, or some custom level is none of them.  The checks come in
    that order and the first that fails decides the error: the one for
    the output, then the one of [Format.Validate], then the one for the
    level, then the one naming a logger with an invalid custom level.
    Every error wraps the module marker [Error].  This holds for every
    order in which the [range] visits [CustomLevels]. *)
Theorem Config_Validate_checks (config : Config) (visited : list (string * Z)) :
  ranges_over visited (c_CustomLevels config) ->
  let result := Config_Validate_in visited config in
  (result <> None <->
     c_Output config = ""%string
     \/ (c_Format config <> FormatText /\ c_Format config <> FormatJSON)
     \/ ~ In (c_Level config) defined_levels
     \/ exists name lvl, c_CustomLevels config !! name = Some lvl /\ ~ In lvl defined_levels)
  /\ (c_Output config = ""%string ->
        result = Some (fmt_Errorf "%w: output empty, expected '%v', '%v' or absolute file path"
                         Error [op_string StdOut; op_string SysLog]))
  /\ (c_Output config <> ""%string ->
      c_Format config <> FormatText /\ c_Format config <> FormatJSON ->
        result = Some (fmt_Errorf "%w: unexpected format `%v`, want `%s` or `%s" Error
                         [op_string (c_Format config); op_string FormatText; op_string FormatJSON]))
  /\ (c_Output config <> ""%string ->
      c_Format config = FormatText \/ c_Format config = FormatJSON ->
      ~ In (c_Level config) defined_levels ->
        result = Some (fmt_Errorf "%w: unknown level: `%v`" Error [op_int (c_Level config)]))
  /\ (c_Output config <> ""%string ->
      c_Format config = FormatText \/ c_Format config = FormatJSON ->
      In (c_Level config) defined_levels ->
      (exists name lvl, c_CustomLevels config !! name = Some lvl /\ ~ In lvl defined_levels) ->
        exists name lvl,
          c_CustomLevels config !! name = Some lvl /\ ~ In lvl defined_levels
          /\ result = Some (fmt_Errorf "%w: unknown level %v: `%v`" Error
                              [op_string name; op_int lvl]))
  /\ (forall err, result = Some err -> is_module_error err = true).
Proof.
  intros Hr result. subst result. unfold Config_Validate_in.
  destruct (String.eqb (c_Output config) "") eqn:Eo.
  { apply String.eqb_eq in Eo.
    repeat split; try (intros; congruence); try tauto.
    intros err [= <-]. reflexivity. }
  apply String.eqb_neq in Eo.
  destruct (Format_Validate (c_Format config)) as [ferr |] eqn:Ef.
  { assert (Hbad : c_Format config <> FormatText /\ c_Format config <> FormatJSON).
    { split; intros Heq;
        (assert (Hn : Format_Validate (c_Format config) = None)
           by (apply Format_Validate_ok; tauto)); congruence. }
    repeat split; try (intros; congruence); try tauto.
    - intros _ _. revert Ef. unfold Format_Validate.
      destruct (String.eqb (c_Format config) FormatText); [discriminate |].
      destruct (String.eqb (c_Format config) FormatJSON); [discriminate |].
      intros [= <-]. reflexivity.
    - intros err [= <-]. eapply Format_Validate_marker; eauto. }
  apply Format_Validate_ok in Ef.
  destruct (is_defined_level (c_Level config)) eqn:El.
  - apply is_defined_level_In in El.
    assert (Hiff : validate_custom_levels visited <> None <->
              exists name lvl, c_CustomLevels config !! name = Some lvl
                               /\ ~ In lvl defined_levels).
    { split.
      - intros Hne. destruct (validate_custom_levels visited) as [err |] eqn:Ev; [| congruence].
        destruct (validate_custom_levels_Some _ _ Ev) as (name & lvl & Hin & Hb & _).
        exists name, lvl. split; [| exact Hb]. now apply (ranges_over_In visited).
      - intros (name & lvl & Hl & Hb) Hnone.
        apply Hb. rewrite validate_custom_levels_None in Hnone.
        apply (Hnone name). now apply (ranges_over_In visited _ name lvl Hr). }
    repeat split; try (intros; congruence); try tauto.
    + intros _ _ _ Hex. apply Hiff in Hex.
      destruct (validate_custom_levels visited) as [err |] eqn:Ev; [| congruence].
      destruct (validate_custom_levels_Some _ _ Ev) as (name & lvl & Hin & Hb & ->).
      exists name, lvl. repeat split; try assumption.
      now apply (ranges_over_In visited).
    + intros err Ev.
      destruct (validate_custom_levels_Some _ _ Ev) as (name & lvl & _ & _ & ->).
      reflexivity.
  - apply is_defined_level_false in El.
    repeat split; try (intros; congruence); try tauto.
    intros err [= <-]. reflexivity.
Qed.

Lemma Config_Validate_checks_witness :
  ranges_over (map_to_list (c_CustomLevels invalid_config)) (c_CustomLevels invalid_config)
  /\ Config_Validate invalid_config
     = Some (fmt_Errorf "%w: output empty, expected '%v', '%v' or absolute file path"
               Error [op_string StdOut; op_string SysLog]).
Proof.
  assert (Hr : ranges_over (map_to_list (c_CustomLevels invalid_config))
                 (c_CustomLevels invalid_config)) by (unfold ranges_over; reflexivity).
  split; [exact Hr |].
  apply (proj1 (proj2 (Config_Validate_checks invalid_config _ Hr))). reflexivity.
Defined.

(** ** Context keys *)

Lemma contextKeys_fold_dom (ctx : Context) (visited : list (string * ContextExtractorFunc))
    (acc : gmap string (option value)) (k : string) :
  is_Some (foldl (contextKeys_step ctx) acc visited !! k)
  <-> is_Some (acc !! k)
      \/ exists k0 e x, In (k0, e) visited /\ e ctx = (k, Some x).
Proof.
  revert acc. induction visited as [| [k0 e] rest IH]; intros acc; simpl.
  - split; [tauto | intros [H | (? & ? & ? & [] & _)]; exact H].
  - rewrite IH. unfold contextKeys_step at 1. simpl.
    destruct (e ctx) as [k1 v] eqn:Ee. destruct v as [x |].
    + split.
      * intros [H | (k2 & e2 & x2 & Hin & He)].
        -- destruct (decide (k1 = k)) as [-> | Hne].
           ++ right. exists k0, e, x. split; [now left | exact Ee].
           ++ left. now rewrite lookup_insert_ne in H.
        -- right. exists k2, e2, x2. split; [now right | exact He].
      * intros [H | (k2 & e2 & x2 & [Heq | Hin] & He)].
        -- left. destruct (decide (k1 = k)) as [-> | Hne].
           ++ rewrite lookup_insert_eq. eauto.
           ++ now rewrite lookup_insert_ne.
        -- injection Heq as <- <-. rewrite Ee in He. injection He as -> _.
           left. rewrite lookup_insert_eq. eauto.
        -- right. exists k2, e2, x2. auto.
    + split.
      * intros [H | (k2 & e2 & x2 & Hin & He)]; [now left |].
        right. exists k2, e2, x2. split; [now right | exact He].
      * intros [H | (k2 & e2 & x2 & [Heq | Hin] & He)]; [now left | |].
        -- injection Heq as <- <-. rewrite Ee in He. discriminate.
        -- right. exists k2, e2, x2. auto.
Qed.

Lemma contextKeys_fold_non_nil (ctx : Context) (visited : list (string * ContextExtractorFunc))
    (acc : gmap string (option value)) :
  (forall k v, acc !! k = Some v -> v <> None) ->
  forall k v, foldl (contextKeys_step ctx) acc visited !! k = Some v -> v <> None.
Proof.
  revert acc. induction visited as [| [k0 e] rest IH]; intros acc Hacc; simpl; [exact Hacc |].
  apply IH. unfold contextKeys_step. simpl.
  destruct (e ctx) as [k1 v1]. destruct v1 as [x |]; [| exact Hacc].
  intros k v. destruct (decide (k1 = k)) as [-> | Hne].
  - rewrite lookup_insert_eq. intros [= <-]. discriminate.
  - rewrite lookup_insert_ne by exact Hne. apply Hacc.
Qed.

(** C7, as the code has it.  [contextKeys] holds an entry for a key
    exactly when some registered extractor returns that key with a
    non-nil value for the context, and no entry holds nil.  When every
    extractor returns, for this context, the key it is registered under
    (as the extractors made by [Key.Extractor] do), this is exactly when
    the extractor of that key returned a non-nil value. *)
Theorem contextKeys_entries (config : Config) (ctx : Context)
    (visited : list (string * ContextExtractorFunc)) :
  ranges_over visited (c_contextExtractors config) ->
  let res := Config_contextKeys_in visited ctx in
  (forall k, is_Some (res !! k)
             <-> exists k0 e x, c_contextExtractors config !! k0 = Some e /\ e ctx = (k, Some x))
  /\ (forall k v, res !! k = Some v -> v <> None)
  /\ ((forall k0 e, c_contextExtractors config !! k0 = Some e -> fst (e ctx) = k0) ->
      forall k, is_Some (res !! k)
                <-> exists e, c_contextExtractors config !! k = Some e /\ snd (e ctx) <> None).
Proof.
  intros Hr res.
  assert (Hdom : forall k, is_Some (res !! k)
             <-> exists k0 e x, c_contextExtractors config !! k0 = Some e /\ e ctx = (k, Some x)).
  { intros k. subst res. unfold Config_contextKeys_in. rewrite contextKeys_fold_dom.
    rewrite lookup_empty. split.
    - intros [[? H] | (k0 & e & x & Hin & He)]; [discriminate |].
      exists k0, e, x. split; [| exact He]. now apply (ranges_over_In visited).
    - intros (k0 & e & x & Hl & He). right. exists k0, e, x. split; [| exact He].
      now apply (ranges_over_In visited _ k0 e Hr). }
  split; [exact Hdom | split].
  - subst res. unfold Config_contextKeys_in. apply contextKeys_fold_non_nil.
    intros k v. rewrite lookup_empty. discriminate.
  - intros Hstable k. rewrite Hdom. split.
    + intros (k0 & e & x & Hl & He). exists e.
      pose proof (Hstable k0 e Hl) as Hk. rewrite He in Hk. simpl in Hk. subst k0.
      split; [exact Hl |]. rewrite He. discriminate.
    + intros (e & Hl & Hv). pose proof (Hstable k e Hl) as Hk.
      destruct (e ctx) as [k1 v] eqn:Ee. simpl in Hk, Hv. subst k1.
      destruct v as [x |]; [| congruence]. exists k, e, x. auto.
Qed.

Lemma contextKeys_entries_witness :
  ranges_over (map_to_list (c_contextExtractors tenant_config)) (c_contextExtractors tenant_config)
  /\ is_Some (Config_contextKeys tenant_config tenant_ctx !! "tenant"%string).
Proof.
  assert (Hr : ranges_over (map_to_list (c_contextExtractors tenant_config))
                 (c_contextExtractors tenant_config)) by (unfold ranges_over; reflexivity).
  split; [exact Hr |].
  apply (proj1 (contextKeys_entries tenant_config tenant_ctx _ Hr) "tenant"%string).
  exists "anonymous"%string, tenant_extractor, (v_int 7). split; reflexivity.
Defined.

(** C7, as stated, fails.  [tenant_extractor] is registered under
    [anonymous], the key it returns for the background context.  For a
    context with a tenant it returns a non-nil value, yet the result has
    no entry for [anonymous]; it has one for [tenant], a key no extractor
    is registered under. *)
Lemma contextKeys_key_of_registration_fails :
  (exists e, c_contextExtractors tenant_config !! "anonymous"%string = Some e
             /\ snd (e tenant_ctx) <> None)
  /\ Config_contextKeys tenant_config tenant_ctx !! "anonymous"%string = None
  /\ c_contextExtractors tenant_config !! "tenant"%string = None
  /\ Config_contextKeys tenant_config tenant_ctx !! "tenant"%string = Some (Some (v_int 7))
  /\ ~ (forall k, is_Some (Config_contextKeys tenant_config tenant_ctx !! k)
                  <-> exists e, c_contextExtractors tenant_config !! k = Some e
                                /\ snd (e tenant_ctx) <> None).
Proof.
  assert (H1 : exists e, c_contextExtractors tenant_config !! "anonymous"%string = Some e
                         /\ snd (e tenant_ctx) <> None).
  { exists tenant_extractor. split; [reflexivity | discriminate]. }
  assert (H2 : Config_contextKeys tenant_config tenant_ctx !! "anonymous"%string = None)
    by reflexivity.
  repeat split; try assumption; try reflexivity.
  intros Hall. apply Hall in H1. rewrite H2 in H1. destruct H1 as [? H1]. discriminate H1.
Qed.

(** ** Locked writers *)

(** [Close] on a writer whose mutex is free returns and leaves the
    stream nil and the mutex free. *)
Lemma LockedWriter_Close_returns (s : LockedWriter) :
  mu s = false ->
  exists err, LockedWriter_Close s = Returns ({| stream := None; mu := false |}, err).
Proof.
  intros Hmu. unfold LockedWriter_Close. rewrite Hmu.
  destruct (stream s); eauto.
Qed.

(** The first [Write] on a closed writer returns [ErrClosed], with the
    mutex still held. *)
Lemma LockedWriter_Write_closed (p : string) :
  LockedWriter_Write {| stream := None; mu := false |} p
  = Returns ({| stream := None; mu := true |}, (0, Some ErrClosed)).
Proof. reflexivity. Qed.

(** Nothing that takes the mutex returns once it is held. *)
Lemma LockedWriter_held (s : LockedWriter) (p : string) :
  mu s = true -> LockedWriter_Write s p = Blocks /\ LockedWriter_Close s = Blocks.
Proof.
  intros Hmu. unfold LockedWriter_Write, LockedWriter_Close. now rewrite Hmu.
Qed.

(** C1 on the code.  On a fresh locked writer over any stream, [Close]
    returns, the first [Write] after it returns [ErrClosed] (no bytes
    written, no panic), and the second [Write] never returns: the first
    one left the mutex held.  Whatever calls follow are not reached. *)
Theorem LockedWriter_second_Write_after_Close_blocks
    (ws : WriteSyncer) (p q : string) (more : list writer_call) :
  writer_run {| stream := Some ws; mu := false |}
             (call_Close :: call_Write p :: call_Write q :: more)
  = [ Returns (reply_Close (match ws_Close ws with Some r => r | None => None end));
      Returns (reply_Write 0 (Some ErrClosed));
      Blocks ].
Proof. reflexivity. Qed.

(** ** The writers registry *)


(** What a resolution does to the registry: nothing on an error or for
    a known output; otherwise one new writer at a fresh address, filed
    under the output. *)
Lemma registeredOutput_cases (env : Env) (registry registry' : Writers) (output : string)
    (r : nat + error) :
  registeredOutput env registry output = (registry', r) ->
  (registry' = registry
   /\ (match r with inl w => reg_writers registry !! output = Some w
               | inr _ => reg_writers registry !! output = None end))
  \/ (exists ws, reg_writers registry !! output = None
       /\ r = inl (length (lw_heap registry))
       /\ lw_heap registry' = lw_heap registry ++ [{| stream := Some ws; mu := false |}]
       /\ reg_writers registry' = <[output := length (lw_heap registry)]> (reg_writers registry)).
Proof.
  unfold registeredOutput.
  destruct (reg_writers registry !! output) as [w |] eqn:El.
  { intros [= <- <-]. now left. }
  destruct (String.eqb output StdOut).
  { intros [= <- <-]. right. eexists. simpl. eauto. }
  destruct (String.eqb output StdErr).
  { intros [= <- <-]. right. eexists. simpl. eauto. }
  destruct (String.eqb output SysLog).
  { destruct (NewSyslogWriter env "udp" "localhost:514").
    - intros [= <- <-]. right. eexists. simpl. eauto.
    - intros [= <- <-]. now left. }
  destruct (os_Create env output).
  - intros [= <- <-]. right. eexists. simpl. eauto.
  - intros [= <- <-]. now left.
Qed.






(** ** The backend *)

Lemma Backend_Init_configured (env : Env) (registry : Writers) (backend : Backend)
    (config : Config) :
  is_Ready backend ->
  Backend_Init env registry backend config = (registry, backend, Some already_configured).
Proof.
  unfold is_Ready, Backend_Init. destruct (_core backend); [reflexivity | congruence].
Qed.

Lemma Backend_Init_success (env : Env) (registry registry' : Writers)
    (backend backend' : Backend) (config : Config) :
  Backend_Init env registry backend config = (registry', backend', None) ->
  _core backend = None /\ is_Ready backend' /\ _config backend' = config.
Proof.
  unfold Backend_Init, is_Ready.
  destruct (_core backend); [discriminate |].
  destruct (Backend_makeEncoder env config); [| discriminate].
  destruct (Output env registry (c_Output config)) as [registry1 [syncer | err]];
    [| discriminate].
  intros [= <- <-]. simpl. repeat split. discriminate.
Qed.

Lemma Backend_Init_failure (env : Env) (registry registry' : Writers)
    (backend backend' : Backend) (config : Config) (err : error) :
  Backend_Init env registry backend config = (registry', backend', Some err) ->
  backend' = backend.
Proof.
  unfold Backend_Init.
  destruct (_core backend); [now intros [= <- <-] |].
  destruct (Backend_makeEncoder env config); [| now intros [= <- <-]].
  destruct (Output env registry (c_Output config)) as [registry1 [syncer | err1]];
    [discriminate | now intros [= <- <-]].
Qed.

(** [Init] with the default configuration succeeds on a fresh backend,
    whatever the environment: the encoder is the console one and the
    standard output is always there to be wrapped. *)
Lemma Backend_Init_default (env : Env) (registry : Writers) (backend : Backend) :
  _core backend = None ->
  exists registry' backend',
    Backend_Init env registry backend NewConfig = (registry', backend', None)
    /\ is_Ready backend' /\ _config backend' = NewConfig.
Proof.
  intros Hc. unfold Backend_Init. rewrite Hc. simpl.
  unfold Output, registeredOutput. simpl.
  destruct (reg_writers registry !! DefaultOutput);
    do 2 eexists; (split; [reflexivity | split; [unfold is_Ready; simpl; discriminate | reflexivity]]).
Qed.

(** Making a logger always returns; the backend is ready afterwards,
    and is left as it was if it was ready before. *)
Lemma Backend_newLoggerForLevels_returns (env : Env) (registry : Writers) (backend : Backend)
    (levels : list Z) :
  exists registry' backend' z,
    Backend_newLoggerForLevels env registry backend levels
    = Returns (registry', backend',
               {| SugaredLogger := z;
                  level := match levels with l0 :: _ => l0 | [] => DefaultLevel end |})
    /\ is_Ready backend'
    /\ (is_Ready backend -> registry' = registry /\ backend' = backend).
Proof.
  unfold Backend_newLoggerForLevels.
  destruct (_core backend) as [z |] eqn:Hc.
  - rewrite Hc. simpl. exists registry, backend, z.
    repeat split. unfold is_Ready. congruence.
  - destruct (Backend_Init_default env registry backend Hc) as (r' & b' & Hi & Hr & _).
    unfold Backend_MustInit. rewrite Hi.
    unfold is_Ready in Hr. destruct (_core b') as [z |] eqn:Hc'; [| congruence].
    simpl. exists r', b', z. repeat split.
    + unfold is_Ready. congruence.
    + unfold is_Ready in H. congruence.
    + unfold is_Ready in H. congruence.
Qed.

Lemma Backend_NewNamedLogger_returns (env : Env) (registry : Writers) (backend : Backend)
    (name : string) (levels : list Z) :
  exists registry' backend' logger,
    Backend_NewNamedLogger env registry backend name levels
    = Returns (registry', backend', logger)
    /\ Logger_Level logger
       = match levels ++ match c_CustomLevels (_config backend) !! name with
                         | Some custom => [custom] | None => [] end with
         | l0 :: _ => l0
         | [] => DefaultLevel
         end
    /\ is_Ready backend'
    /\ (is_Ready backend -> registry' = registry /\ backend' = backend).
Proof.
  unfold Backend_NewNamedLogger.
  set (levels' := match c_CustomLevels (_config backend) !! name with
                  | Some custom => levels ++ [custom] | None => levels end).
  destruct (Backend_newLoggerForLevels_returns env registry backend levels')
    as (r' & b' & z & -> & Hr & Hsame).
  do 3 eexists. split; [reflexivity |]. split; [| split; assumption].
  simpl. subst levels'.
  destruct (c_CustomLevels (_config backend) !! name); [reflexivity |].
  now rewrite app_nil_r.
Qed.

Lemma backend_step_keeps_ready (env : Env) (registry : Writers) (backend : Backend)
    (c : backend_call) :
  is_Ready backend -> backend_step env (registry, backend) c = (registry, backend).
Proof.
  intros Hr. destruct c; simpl.
  - now rewrite Backend_Init_configured.
  - now rewrite Backend_Init_configured.
  - unfold Backend_NewLogger.
    destruct (Backend_newLoggerForLevels_returns env registry backend levels)
      as (r' & b' & z & -> & _ & Hsame). destruct (Hsame Hr) as [-> ->]. reflexivity.
  - unfold Backend_NewLoggerCtx.
    destruct (Backend_newLoggerForLevels_returns env registry backend levels)
      as (r' & b' & z & -> & _ & Hsame). destruct (Hsame Hr) as [-> ->]. reflexivity.
  - destruct (Backend_NewNamedLogger_returns env registry backend name levels)
      as (r' & b' & lg & -> & _ & _ & Hsame). destruct (Hsame Hr) as [-> ->]. reflexivity.
  - unfold Backend_NewNamedLoggerCtx.
    destruct (Backend_NewNamedLogger_returns env registry backend name levels)
      as (r' & b' & lg & -> & _ & _ & Hsame). destruct (Hsame Hr) as [-> ->]. reflexivity.
Qed.

Lemma backend_steps_keep_ready (env : Env) (calls : list backend_call) (registry : Writers)
    (backend : Backend) :
  is_Ready backend -> foldl (backend_step env) (registry, backend) calls = (registry, backend).
Proof.
  intros Hr. induction calls as [| c rest IH]; [reflexivity |].
  change (foldl (backend_step env) (backend_step env (registry, backend) c) rest
          = (registry, backend)).
  rewrite backend_step_keeps_ready by exact Hr. exact IH.
Qed.

(** C9 does not hold on the code for calls that overlap.  [Init] tests
    [_core] before it takes [_mu], so two calls on one fresh backend can
    both find no core.  Whenever [Init] with [cA] succeeds on a fresh
    backend and [Init] with [cB] would succeed on a fresh backend next,
    the two calls on the same backend, taking their steps in turn, both
    return without an error: when the first has returned, the backend
    is ready and holds [cA], and the section of the second then stores
    its own core and [cB] over them.  The same two calls one after the
    other give the already-configured error to the second and leave the
    backend as the first made it. *)
Theorem Backend_Init_overlapping_both_succeed (env : Env) (registry rA rB : Writers)
    (cA cB : Config) (bA bB : Backend) :
  Backend_Init env registry new_Backend cA = (rA, bA, None) ->
  Backend_Init env rA new_Backend cB = (rB, bB, None) ->
  (exists encoder syncer,
      Init_interleaved env (registry, new_Backend) [cA; cB] [0; 1; 0; 1; 0]%nat
      = ((rB, bA), [(cA, pc_returned None); (cB, pc_storing encoder syncer)]))
  /\ Init_interleaved env (registry, new_Backend) [cA; cB] [0; 1; 0; 1; 0; 1]%nat
     = ((rB, bB), [(cA, pc_returned None); (cB, pc_returned None)])
  /\ is_Ready bA /\ _config bA = cA /\ is_Ready bB /\ _config bB = cB
  /\ (cA <> cB -> bB <> bA)
  /\ Init_interleaved env (registry, new_Backend) [cA; cB] [0; 0; 0; 1; 1; 1]%nat
     = ((rA, bA), [(cA, pc_returned None); (cB, pc_returned (Some already_configured))]).
Proof.
  intros HA HB.
  destruct (Backend_Init_success _ _ _ _ _ _ HA) as (_ & HrA & HcA).
  destruct (Backend_Init_success _ _ _ _ _ _ HB) as (_ & HrB & HcB).
  revert HA HB. unfold Backend_Init, Init_interleaved. simpl.
  destruct (Backend_makeEncoder env cA) as [eA |] eqn:EA; [| discriminate].
  destruct (Output env registry (c_Output cA)) as [rA' [sA | errA]] eqn:OA; [| discriminate].
  intros [= -> <-].
  destruct (Backend_makeEncoder env cB) as [eB |] eqn:EB; [| discriminate].
  destruct (Output env rA (c_Output cB)) as [rB' [sB | errB]] eqn:OB; [| discriminate].
  intros [= -> <-].
  unfold Init_schedule_step. simpl. rewrite EA, OA. simpl. rewrite EB, OB. simpl.
  split; [eauto |]. split; [reflexivity |].
  split; [exact HrA |]. split; [reflexivity |]. split; [exact HrB |].
  split; [reflexivity |]. split; [intros Hne Heq; apply Hne; congruence |].
  reflexivity.
Qed.

Lemma Backend_Init_overlapping_both_succeed_witness :
  exists registry' backend',
    Init_interleaved quiet_env (newWritersRegistry, new_Backend) [svc_config; NewConfig]
      [0; 1; 0; 1; 0; 1]%nat
    = ((registry', backend'), [(svc_config, pc_returned None); (NewConfig, pc_returned None)])
    /\ _config backend' = NewConfig
    /\ backend' <> svc_backend.
Proof.
  assert (HA : Backend_Init quiet_env newWritersRegistry new_Backend svc_config
               = (svc_registry, svc_backend, None)) by reflexivity.
  destruct (Backend_Init_default quiet_env svc_registry new_Backend eq_refl)
    as (rB & bB & HB & _ & _).
  destruct (Backend_Init_overlapping_both_succeed quiet_env newWritersRegistry svc_registry rB
              svc_config NewConfig svc_backend bB HA HB)
    as (_ & Hboth & _ & _ & _ & Hcfg & Hne & _).
  exists rB, bB. split; [exact Hboth |]. split; [exact Hcfg |].
  apply Hne. intros H. apply (f_equal c_Level) in H. discriminate H.
Defined.

(** C10. [Backend.NewNamedLogger] always returns a logger.  With at
    least one level argument its level is the first argument, also when
    the backend's configuration has a custom level for the name, where
    [levelForNamed] on the same configuration gives the custom level
    instead.  Without an argument its level is the custom level of the
    name, or [DefaultLevel] when there is none. *)
Theorem Backend_NewNamedLogger_level (env : Env) (registry : Writers) (backend : Backend)
    (name : string) :
  (forall l0 rest, exists registry' backend' logger,
     Backend_NewNamedLogger env registry backend name (l0 :: rest)
     = Returns (registry', backend', logger)
     /\ Logger_Level logger = l0)
  /\ (forall custom, c_CustomLevels (_config backend) !! name = Some custom ->
      (exists registry' backend' logger,
         Backend_NewNamedLogger env registry backend name []
         = Returns (registry', backend', logger)
         /\ Logger_Level logger = custom)
      /\ forall l0 rest, Config_levelForNamed (_config backend) name (l0 :: rest) = custom)
  /\ (c_CustomLevels (_config backend) !! name = None ->
      exists registry' backend' logger,
        Backend_NewNamedLogger env registry backend name []
        = Returns (registry', backend', logger)
        /\ Logger_Level logger = DefaultLevel).
Proof.
  split; [| split].
  - intros l0 rest.
    destruct (Backend_NewNamedLogger_returns env registry backend name (l0 :: rest))
      as (r' & b' & lg & H & Hl & _). exists r', b', lg. split; [exact H |].
    rewrite Hl. reflexivity.
  - intros custom Hc. split.
    + destruct (Backend_NewNamedLogger_returns env registry backend name [])
        as (r' & b' & lg & H & Hl & _). exists r', b', lg. split; [exact H |].
      rewrite Hl, Hc. reflexivity.
    + intros l0 rest. unfold Config_levelForNamed. now rewrite Hc.
  - intros Hc.
    destruct (Backend_NewNamedLogger_returns env registry backend name [])
      as (r' & b' & lg & H & Hl & _). exists r', b', lg. split; [exact H |].
    rewrite Hl, Hc. reflexivity.
Qed.

Lemma Backend_NewNamedLogger_level_witness :
  (exists registry' backend' logger,
     Backend_NewNamedLogger quiet_env svc_registry svc_backend "svc" [LevelTrace]
     = Returns (registry', backend', logger)
     /\ Logger_Level logger = LevelTrace)
  /\ (exists registry' backend' logger,
        Backend_NewNamedLogger quiet_env svc_registry svc_backend "svc" []
        = Returns (registry', backend', logger)
        /\ Logger_Level logger = LevelWarn)
  /\ Config_levelForNamed (_config svc_backend) "svc" [LevelTrace] = LevelWarn.
Proof.
  destruct (Backend_NewNamedLogger_level quiet_env svc_registry svc_backend "svc")
    as (Harg & Hcustom & _).
  assert (Hc : c_CustomLevels (_config svc_backend) !! "svc"%string = Some LevelWarn)
    by reflexivity.
  split; [apply Harg | split].
  - apply (proj1 (Hcustom LevelWarn Hc)).
  - apply (proj2 (Hcustom LevelWarn Hc)).
Defined.

(** ** The process-wide session *)

(** C6. With no backend set, each of the four factory functions panics
    with the set-backend-first error; with a backend set and the ready
    flag down, each panics with the init-first error.  Both errors wrap
    the module marker, and in neither case is a logger returned. *)
Theorem factories_fail_fast (env : Env) (w : World) (ctx : Context) (name : string)
    (levels : list Z) :
  (usingBackend w = None ->
     NewLogger env w levels = Panics set_backend_first
     /\ NewNamedLogger env w name levels = Panics set_backend_first
     /\ NewLoggerCtx env w ctx levels = Panics set_backend_first
     /\ NewNamedLoggerCtx env w ctx name levels = Panics set_backend_first)
  /\ (usingBackend w <> None -> initDone w = false ->
        NewLogger env w levels = Panics init_first
        /\ NewNamedLogger env w name levels = Panics init_first
        /\ NewLoggerCtx env w ctx levels = Panics init_first
        /\ NewNamedLoggerCtx env w ctx name levels = Panics init_first)
  /\ is_module_error set_backend_first = true
  /\ is_module_error init_first = true
  /\ error_format set_backend_first = "%w: set backend first"%string
  /\ error_format init_first = "%w: init first"%string.
Proof.
  unfold NewLogger, NewNamedLogger, NewLoggerCtx, NewNamedLoggerCtx.
  split; [| split; [| repeat split]].
  - intros ->. repeat split.
  - intros Hb ->. destruct (usingBackend w); [| congruence]. repeat split.
Qed.

Lemma factories_fail_fast_witness :
  NewLogger quiet_env initial_World [] = Panics set_backend_first
  /\ NewNamedLogger quiet_env (setBackend initial_World (Some 0%nat)) "svc" [LevelDebug]
     = Panics init_first.
Proof.
  split.
  - apply (factories_fail_fast quiet_env initial_World context_Background "svc" []).
    reflexivity.
  - apply (proj1 (proj2 (factories_fail_fast quiet_env (setBackend initial_World (Some 0%nat))
                           context_Background "svc" [LevelDebug]))).
    + discriminate.
    + reflexivity.
Defined.





(* ===================================================================== *)
(** * Further properties *)
(* ===================================================================== *)

(** ** Keys in a context *)

Lemma context_key_eqb_refl (k : context_key) : context_key_eqb k k = true.
Proof. destruct k; simpl; [apply String.eqb_refl | apply Nat.eqb_refl]. Qed.

Lemma loggable_eqb_neq (k k' : string) :
  k' <> k -> context_key_eqb (loggableContextKey k) (loggableContextKey k') = false.
Proof. intros H. simpl. apply String.eqb_neq. congruence. Qed.

(** X1. A value set for a key is what is read back for that key, also
    when it is nil and hides an earlier value; the values of the other
    keys, and of the keys of other packages, are as before; and the
    extractor of a key returns the key with that value, nil for the
    background context. *)
Theorem Key_SetToCtx_getFromCtx (k k' : string) (ctx : Context) (v : option value) :
  Key_getFromCtx k (Key_SetToCtx k ctx v) = v
  /\ (k' <> k -> Key_getFromCtx k' (Key_SetToCtx k ctx v) = Key_getFromCtx k' ctx)
  /\ (forall n, Context_Value (Key_SetToCtx k ctx v) (foreign_key n)
                = Context_Value ctx (foreign_key n))
  /\ Key_Extractor k (Key_SetToCtx k ctx v) = (k, v)
  /\ (k' <> k -> Key_Extractor k' (Key_SetToCtx k ctx v) = (k', Key_getFromCtx k' ctx))
  /\ Key_Extractor k context_Background = (k, None).
Proof.
  unfold Key_Extractor, Key_getFromCtx, Key_SetToCtx, context_WithValue, Key_loggingKey.
  simpl. rewrite String.eqb_refl.
  repeat split.
  - intros H. apply String.eqb_neq in H. rewrite String.eqb_sym in H. now rewrite H.
  - intros H. apply String.eqb_neq in H. rewrite String.eqb_sym in H. now rewrite H.
Qed.

Lemma Key_SetToCtx_getFromCtx_witness :
  Key_getFromCtx "request" request_ctx = Some (v_int 42)
  /\ Key_getFromCtx "user" request_ctx = None.
Proof.
  split.
  - unfold request_ctx.
    rewrite (proj1 (proj2 (Key_SetToCtx_getFromCtx "user" "request"
               (Key_SetToCtx "request" context_Background (Some (v_int 42))) None)))
      by discriminate.
    exact (proj1 (Key_SetToCtx_getFromCtx "request" "request" context_Background
                    (Some (v_int 42)))).
  - exact (proj1 (Key_SetToCtx_getFromCtx "user" "user"
                    (Key_SetToCtx "request" context_Background (Some (v_int 42))) None)).
Defined.

(** ** Extractors made from keys *)

(** The extractors filed by [WithContextExtractors] for the extractors of
    the keys [ks], on top of a map holding such extractors only. *)
Lemma key_extractors_fold (ks : list string) (m : gmap string ContextExtractorFunc) :
  (forall k e, m !! k = Some e -> e = Key_Extractor k) ->
  forall k e,
    foldl (fun m extractor => <[fst (extractor context_Background) := extractor]> m)
          m (map Key_Extractor ks) !! k = Some e
    <-> e = Key_Extractor k /\ (In k ks \/ is_Some (m !! k)).
Proof.
  revert m. induction ks as [| k0 ks IH]; intros m Hm k e; simpl.
  - split.
    + intros H. split; [now apply Hm | right; eauto].
    + intros [-> [[] | [e' He']]]. now rewrite He', (Hm k e' He').
  - rewrite IH.
    + split.
      * intros [-> [Hin | [e' He']]]; (split; [reflexivity |]); [tauto |].
        destruct (decide (k0 = k)) as [-> | Hne]; [tauto |].
        rewrite lookup_insert_ne in He' by exact Hne. right. eauto.
      * intros [-> [[-> | Hin] | [e' He']]]; (split; [reflexivity |]).
        -- right. rewrite lookup_insert_eq. eauto.
        -- now left.
        -- right. destruct (decide (k0 = k)) as [-> | Hne].
           ++ rewrite lookup_insert_eq. eauto.
           ++ rewrite lookup_insert_ne by exact Hne. eauto.
    + intros k1 e1. destruct (decide (k0 = k1)) as [-> | Hne].
      * rewrite lookup_insert_eq. now intros [= <-].
      * rewrite lookup_insert_ne by exact Hne. apply Hm.
Qed.

(** Every value [contextKeys] stores for extractors of keys is the value
    the context has for the key of the entry. *)
Lemma contextKeys_fold_values (ctx : Context) (visited : list (string * ContextExtractorFunc))
    (acc : gmap string (option value)) :
  (forall k0 e, In (k0, e) visited -> e = Key_Extractor k0) ->
  (forall k v, acc !! k = Some v -> v = Key_getFromCtx k ctx) ->
  forall k v, foldl (contextKeys_step ctx) acc visited !! k = Some v ->
              v = Key_getFromCtx k ctx.
Proof.
  revert acc. induction visited as [| [k0 e] rest IH]; intros acc Hv Hacc; simpl;
    [exact Hacc |].
  apply IH; [intros k1 e1 Hin; apply Hv; now right |].
  rewrite (Hv k0 e (or_introl eq_refl)).
  unfold contextKeys_step, Key_Extractor. simpl.
  destruct (Key_getFromCtx k0 ctx) as [x |] eqn:Eg; [| exact Hacc].
  intros k v. destruct (decide (k0 = k)) as [-> | Hne].
  - rewrite lookup_insert_eq. intros [= <-]. now rewrite Eg.
  - rewrite lookup_insert_ne by exact Hne. apply Hacc.
Qed.

(** A call on a configuration whose map was made returns, with the
    extractors filed in the order of the call. *)
Lemma WithContextExtractors_made_map (extractors : list ContextExtractorFunc)
    (config : Config) (m : gmap string ContextExtractorFunc) :
  c_contextExtractors config = made_map m ->
  WithContextExtractors extractors config
  = Returns (set_contextExtractors config
               (made_map (foldl (fun m extractor =>
                                   <[fst (extractor context_Background) := extractor]> m)
                                m extractors))).
Proof.
  intros H. unfold WithContextExtractors. rewrite H.
  destruct extractors as [| e0 es]; [| reflexivity].
  destruct config as [l f o cl ce]. simpl in H. subst ce. reflexivity.
Qed.

(** The sample configuration is what the call on the defaults returns. *)
Lemma tenant_config_registered :
  WithContextExtractors [tenant_extractor] NewConfig = Returns tenant_config.
Proof.
  unfold tenant_config.
  now rewrite (WithContextExtractors_made_map [tenant_extractor] NewConfig ∅ eq_refl).
Qed.

(** X2. Registering the extractors of the keys [ks] on a fresh
    configuration returns, and in the configuration it returns
    [contextKeys] holds for a context exactly the keys of [ks] that have
    a non-nil value in the context, each with that value, whatever the
    order in which the extractors are visited and however often a key
    occurs in [ks]. *)
Theorem contextKeys_of_Key_Extractors (ks : list string) (ctx : Context)
    (visited : list (string * ContextExtractorFunc)) :
  exists config,
    WithContextExtractors (map Key_Extractor ks) NewConfig = Returns config
    /\ (ranges_over visited (c_contextExtractors config) ->
        forall k v,
          Config_contextKeys_in visited ctx !! k = Some v
          <-> In k ks /\ Key_getFromCtx k ctx = v /\ v <> None).
Proof.
  eexists. split; [exact (WithContextExtractors_made_map _ NewConfig ∅ eq_refl) |].
  simpl. intros Hr k v.
  assert (Hm : forall k e,
             foldl (fun m extractor => <[fst (extractor context_Background) := extractor]> m)
                   (∅ : gmap string ContextExtractorFunc) (map Key_Extractor ks) !! k = Some e
             <-> e = Key_Extractor k /\ In k ks).
  { intros k1 e1. rewrite key_extractors_fold.
    - rewrite lookup_empty. split; [intros [-> [H | [? H]]]; [tauto | discriminate] | tauto].
    - intros k2 e2. rewrite lookup_empty. discriminate. }
  assert (Hv : forall k0 e, In (k0, e) visited -> e = Key_Extractor k0).
  { intros k0 e Hin. apply (ranges_over_In visited _ k0 e Hr) in Hin. now apply Hm in Hin. }
  unfold Config_contextKeys_in. split.
  - intros Hl.
    assert (Hval : v = Key_getFromCtx k ctx).
    { eapply contextKeys_fold_values; eauto. intros ? ?. rewrite lookup_empty. discriminate. }
    assert (Hnn : v <> None).
    { eapply contextKeys_fold_non_nil; [| exact Hl]. intros ? ?. rewrite lookup_empty.
      discriminate. }
    assert (Hs : is_Some (foldl (contextKeys_step ctx) ∅ visited !! k)) by eauto.
    apply contextKeys_fold_dom in Hs. rewrite lookup_empty in Hs.
    destruct Hs as [[? Hs] | (k0 & e & x & Hin & He)]; [discriminate |].
    pose proof (Hv k0 e Hin) as ->. unfold Key_Extractor in He. injection He as -> _.
    apply (ranges_over_In visited _ k (Key_Extractor k) Hr) in Hin. apply Hm in Hin.
    split; [tauto |]. split; [congruence | exact Hnn].
  - intros (Hin & Hg & Hnn).
    destruct v as [x |]; [| congruence].
    assert (Hs : is_Some (foldl (contextKeys_step ctx) ∅ visited !! k)).
    { apply contextKeys_fold_dom. right. exists k, (Key_Extractor k), x. split.
      - apply (ranges_over_In visited _ k (Key_Extractor k) Hr). now apply Hm.
      - unfold Key_Extractor. now rewrite Hg. }
    destruct Hs as [v' Hl]. rewrite Hl. f_equal.
    rewrite <- Hg. eapply contextKeys_fold_values; eauto.
    intros ? ?. rewrite lookup_empty. discriminate.
Qed.

Lemma contextKeys_of_Key_Extractors_witness :
  exists config,
    WithContextExtractors (map Key_Extractor ["request"; "user"]) NewConfig = Returns config
    /\ Config_contextKeys config request_ctx = {[ "request"%string := Some (v_int 42) ]}.
Proof.
  pose (config0 := set_contextExtractors NewConfig
          (made_map (foldl (fun m extractor =>
                              <[fst (extractor context_Background) := extractor]> m)
                           ∅ (map Key_Extractor ["request"; "user"]%string)))).
  destruct (contextKeys_of_Key_Extractors ["request"; "user"]%string request_ctx
              (map_to_list (entries (c_contextExtractors config0))))
    as (config & Hret & Hkeys).
  exists config. split; [exact Hret |].
  assert (Hc : config = config0).
  { rewrite (WithContextExtractors_made_map _ NewConfig ∅ eq_refl) in Hret.
    now injection Hret as <-. }
  subst config.
  apply map_eq. intros k. apply option_eq. intros v.
  unfold Config_contextKeys.
  rewrite (Hkeys (reflexivity _) k v).
  destruct (decide (k = "request"%string)) as [-> | Hne].
  - rewrite lookup_singleton_eq. split.
    + intros (_ & H & _). rewrite <- H. reflexivity.
    + intros [= <-]. repeat split; [simpl; tauto | discriminate].
  - rewrite lookup_singleton_ne by congruence. split; [| discriminate].
    intros ([<- | [<- | []]] & H & Hnn); [congruence |]. exfalso. apply Hnn. now rewrite <- H.
Defined.

(** ** Options *)

(** X3. Options apply in order: applying two lists one after the other
    is applying their concatenation; an option for the level, the format
    or the target at the end decides that field and leaves the others as
    the options before it made them, so the later of two options for
    one field wins and options for different fields can be swapped. *)
Theorem Config_Apply_in_order (config : Config) (opts opts' : list Option)
    (l l' : Z) (f : string) (t : string) :
  Config_Apply config (opts ++ opts') = Config_Apply (Config_Apply config opts) opts'
  /\ (let c := Config_Apply config opts in
      Config_Apply config (opts ++ [WithLevel l])
      = {| c_Level := l; c_Format := c_Format c; c_Output := c_Output c;
           c_CustomLevels := c_CustomLevels c;
           c_contextExtractors := c_contextExtractors c |}
      /\ Config_Apply config (opts ++ [WithFormat f])
         = {| c_Level := c_Level c; c_Format := f; c_Output := c_Output c;
              c_CustomLevels := c_CustomLevels c;
              c_contextExtractors := c_contextExtractors c |}
      /\ Config_Apply config (opts ++ [WithTarget t])
         = {| c_Level := c_Level c; c_Format := c_Format c; c_Output := t;
              c_CustomLevels := c_CustomLevels c;
              c_contextExtractors := c_contextExtractors c |})
  /\ Config_Apply config (opts ++ [WithLevel l; WithLevel l'])
     = Config_Apply config (opts ++ [WithLevel l'])
  /\ Config_Apply config (opts ++ [WithLevel l; WithFormat f; WithTarget t])
     = Config_Apply config (opts ++ [WithTarget t; WithFormat f; WithLevel l]).
Proof.
  unfold Config_Apply. rewrite !foldl_app. repeat split.
Qed.

(** ** The session: Init *)

Lemma validate_custom_levels_marker (visited : list (string * Z)) (err : error) :
  validate_custom_levels visited = Some err -> is_module_error err = true.
Proof.
  intros H. destruct (validate_custom_levels_Some _ _ H) as (? & ? & _ & _ & ->). reflexivity.
Qed.

Lemma Config_Validate_in_marker (visited : list (string * Z)) (config : Config) (err : error) :
  Config_Validate_in visited config = Some err -> is_module_error err = true.
Proof.
  unfold Config_Validate_in.
  destruct (String.eqb (c_Output config) ""); [now intros [= <-] |].
  destruct (Format_Validate (c_Format config)) eqn:Ef;
    [intros [= <-]; eapply Format_Validate_marker; eauto |].
  destruct (is_defined_level (c_Level config)); [apply validate_custom_levels_marker |].
  now intros [= <-].
Qed.

(** [Backend.Init] on a fresh backend succeeds when the output is one
    of the standard streams and the format is known. *)
Lemma Backend_Init_standard_stream (env : Env) (registry : Writers) (config : Config) :
  c_Output config = StdOut \/ c_Output config = StdErr ->
  Format_Validate (c_Format config) = None ->
  exists registry' backend',
    Backend_Init env registry new_Backend config = (registry', backend', None).
Proof.
  intros Ho Hf. apply Format_Validate_ok in Hf.
  unfold Backend_Init, Backend_makeEncoder, Output, registeredOutput. simpl.
  assert (Hs : String.eqb (c_Output config) SysLog = false)
    by (destruct Ho as [-> | ->]; reflexivity).
  rewrite Hs.
  assert (He : exists enc,
             (if String.eqb (c_Format config) FormatText
              then inl (ConsoleEncoder (Backend_makeConfig config))
              else if String.eqb (c_Format config) FormatJSON
                   then inl (JSONEncoder (Backend_makeConfig config))
                   else inr (fmt_Errorf "%w: unknown format: %v" Error
                               [op_string (c_Format config)])) = inl enc :> Encoder + error).
  { destruct Hf as [-> | ->]; simpl; eauto. }
  destruct He as [enc ->].
  destruct (reg_writers registry !! c_Output config); [eauto |].
  destruct Ho as [-> | ->]; simpl; eauto.
Qed.

(** X4. [Init] succeeds, in every environment and from every state of
    the session, when its options pass [Validate] and name a standard
    stream as output, as the defaults do: the new backend is the one in
    use and finished its own [Init] with the configuration, the ready
    flag is up and the configuration is the stored one. *)
Theorem Init_standard_stream_succeeds (env : Env) (w : World) (opts : list Option) :
  let config := Config_Apply NewConfig opts in
  Config_Validate config = None ->
  c_Output config = StdOut \/ c_Output config = StdErr ->
  exists w' backend,
    Init env w opts = (w', None)
    /\ MustInit env w opts = Returns w'
    /\ usingBackend w' = Some (length (backends w))
    /\ initDone w' = true
    /\ useConfig w' = config
    /\ backends w' !! length (backends w) = Some backend
    /\ is_Ready backend /\ _config backend = config.
Proof.
  intros config Hv Ho.
  assert (Hf : Format_Validate (c_Format config) = None).
  { revert Hv. unfold Config_Validate, Config_Validate_in.
    destruct (String.eqb (c_Output config) ""); [discriminate |].
    destruct (Format_Validate (c_Format config)); [discriminate | reflexivity]. }
  destruct (Backend_Init_standard_stream env (writers w) config Ho Hf) as (r' & b' & Hi).
  destruct (Backend_Init_success _ _ _ _ _ _ Hi) as (_ & Hready & Hcfg).
  unfold MustInit, Init, Init_trace. fold config. rewrite Hv. simpl. rewrite Hi. simpl.
  do 2 eexists. repeat split; try eassumption.
  apply list_lookup_insert_eq. rewrite length_app. simpl. lia.
Qed.

Lemma Init_standard_stream_succeeds_witness :
  exists w' backend,
    Init deaf_env ready_World [WithLevel LevelDebug; WithTarget StdErr; WithFormat FormatJSON]
    = (w', None)
    /\ initDone w' = true
    /\ backends w' !! 1%nat = Some backend
    /\ c_Level (_config backend) = LevelDebug.
Proof.
  destruct (Init_standard_stream_succeeds deaf_env ready_World
              [WithLevel LevelDebug; WithTarget StdErr; WithFormat FormatJSON])
    as (w' & backend & Hi & _ & _ & Hd & _ & Hb & _ & Hc).
  - reflexivity.
  - right. reflexivity.
  - exists w', backend. split; [exact Hi |]. split; [exact Hd |]. split; [exact Hb |].
    now rewrite Hc.
Defined.

(** X5. Options that do not pass [Validate] make [Init] return the
    error of [Validate], which wraps the module marker, and [MustInit]
    panic with it; the session is left exactly as it was.  That is so
    whenever the last option sets a format other than text and json, a
    level outside the seven, or an empty target. *)
Theorem Init_invalid_options (env : Env) (w : World) (opts : list Option) :
  (forall err, Config_Validate (Config_Apply NewConfig opts) = Some err ->
     Init env w opts = (w, Some err)
     /\ MustInit env w opts = Panics err
     /\ is_module_error err = true)
  /\ (forall f, f <> FormatText -> f <> FormatJSON ->
        exists err, Init env w (opts ++ [WithFormat f]) = (w, Some err))
  /\ (forall l, ~ In l defined_levels ->
        exists err, Init env w (opts ++ [WithLevel l]) = (w, Some err))
  /\ (exists err, Init env w (opts ++ [WithTarget ""]) = (w, Some err)).
Proof.
  assert (Hfail : forall opts' err, Config_Validate (Config_Apply NewConfig opts') = Some err ->
            Init env w opts' = (w, Some err)
            /\ MustInit env w opts' = Panics err
            /\ is_module_error err = true).
  { intros opts' err Hv. unfold MustInit, Init, Init_trace. rewrite Hv. simpl.
    repeat split. unfold Config_Validate in Hv. eapply Config_Validate_in_marker; eauto. }
  assert (Hsome : forall opts', Config_Validate (Config_Apply NewConfig opts') <> None ->
            exists err, Init env w opts' = (w, Some err)).
  { intros opts' Hne.
    destruct (Config_Validate (Config_Apply NewConfig opts')) as [err |] eqn:Hv;
      [| congruence].
    exists err. now apply Hfail. }
  split; [apply Hfail |]. split; [| split].
  - intros f Ht Hj. apply Hsome.
    unfold Config_Apply. rewrite foldl_app. simpl.
    unfold Config_Validate, Config_Validate_in. simpl.
    destruct (String.eqb _ ""); [discriminate |].
    destruct (Format_Validate f) eqn:Ef; [discriminate |].
    apply Format_Validate_ok in Ef. tauto.
  - intros l Hl. apply Hsome.
    unfold Config_Apply. rewrite foldl_app. simpl.
    unfold Config_Validate, Config_Validate_in. simpl.
    destruct (String.eqb _ ""); [discriminate |].
    destruct (Format_Validate _); [discriminate |].
    apply is_defined_level_false in Hl. rewrite Hl. discriminate.
  - apply Hsome.
    unfold Config_Apply. rewrite foldl_app. simpl.
    unfold Config_Validate, Config_Validate_in. simpl. discriminate.
Qed.

Lemma Init_invalid_options_witness :
  exists err,
    Init quiet_env ready_World [WithLevel LevelDebug; WithFormat "someFormat"]
    = (ready_World, Some err)
    /\ MustInit quiet_env ready_World [WithLevel LevelDebug; WithFormat "someFormat"]
       = Panics err.
Proof.
  destruct (Init_invalid_options quiet_env ready_World [WithLevel LevelDebug]) as (_ & Hf & _).
  destruct (Hf "someFormat"%string) as [err Hi]; [discriminate | discriminate |].
  simpl in Hi. exists err. split; [exact Hi |].
  unfold MustInit. now rewrite Hi.
Defined.

(** X6. When the options pass [Validate] and [Init] still fails, it
    failed in [backend.Init], after [setBackend]: the returned error
    wraps the module marker, the backend in use is the new one, without
    a core, the ready flag is down and the stored configuration is the
    old one.  Every factory function then panics with the init-first
    error, also when the session was ready before. *)
Theorem Init_backend_failure (env : Env) (w w' : World) (opts : list Option) (err : error) :
  Config_Validate (Config_Apply NewConfig opts) = None ->
  Init env w opts = (w', Some err) ->
  is_module_error err = true
  /\ usingBackend w' = Some (length (backends w))
  /\ backends w' !! length (backends w) = Some new_Backend
  /\ initDone w' = false
  /\ useConfig w' = useConfig w
  /\ writers w' = writers w
  /\ (forall ctx name levels,
        NewLogger env w' levels = Panics init_first
        /\ NewNamedLogger env w' name levels = Panics init_first
        /\ NewLoggerCtx env w' ctx levels = Panics init_first
        /\ NewNamedLoggerCtx env w' ctx name levels = Panics init_first).
Proof.
  intros Hv. unfold Init, Init_trace. rewrite Hv.
  destruct (Backend_Init env _ new_Backend (Config_Apply NewConfig opts))
    as [[registry' backend'] ierr] eqn:Ei.
  simpl in Ei. destruct ierr as [e |]; [| discriminate].
  pose proof (Backend_Init_failure _ _ _ _ _ _ _ Ei) as ->.
  assert (Hreg : registry' = writers w).
  { revert Ei. unfold Backend_Init. simpl.
    destruct (Backend_makeEncoder env _); [| now intros [= <-]].
    destruct (Output env (writers w) _) as [r1 [s | e1]] eqn:Eo; [discriminate |].
    intros [= <- _]. unfold Output in Eo. apply registeredOutput_cases in Eo.
    destruct Eo as [[-> _] | (? & _ & [=] & _)]. reflexivity. }
  subst registry'. simpl. intros [= <- <-]. simpl.
  assert (Hl : <[length (backends w) := new_Backend]> (backends w ++ [new_Backend])
                 !! length (backends w) = Some new_Backend).
  { apply list_lookup_insert_eq. rewrite length_app. simpl. lia. }
  repeat split; try assumption.
Qed.

Lemma Init_backend_failure_witness :
  exists w' err,
    initDone ready_World = true
    /\ Init deaf_env ready_World [WithTarget "/var/log/app.log"] = (w', Some err)
    /\ NewLogger deaf_env w' [] = Panics init_first.
Proof.
  destruct (Init deaf_env ready_World [WithTarget "/var/log/app.log"]) as [w' oerr] eqn:Ei.
  destruct oerr as [err |]; [| vm_compute in Ei; discriminate Ei].
  exists w', err. split; [reflexivity |]. split; [reflexivity |].
  destruct (Init_backend_failure deaf_env ready_World w' [WithTarget "/var/log/app.log"] err
              eq_refl Ei) as (_ & _ & _ & _ & _ & _ & Hf).
  exact (proj1 (Hf context_Background ""%string [])).
Defined.

(** ** The session: the factory functions *)

(** The world after a method of the backend at [b] was called. *)
Lemma call_backend_returns (w : World) (b : nat) (backend : Backend)
    (method : Writers -> Backend -> outcome (Writers * Backend * zapLogger))
    (registry' : Writers) (backend' : Backend) (made : zapLogger) :
  backends w !! b = Some backend ->
  method (writers w) backend = Returns (registry', backend', made) ->
  exists w', call_backend w b method = Returns (w', made)
             /\ usingBackend w' = usingBackend w /\ initDone w' = initDone w
             /\ useConfig w' = useConfig w.
Proof.
  intros Hb Hm. unfold call_backend. rewrite Hb, Hm. eexists. repeat split.
Qed.

(** X7. In a session that is ready, every factory function returns a
    logger.  [NewLogger] and [NewLoggerCtx] give it the first level
    passed and [DefaultLevel] when none is passed, whatever the level of
    the stored configuration; [NewNamedLogger] and [NewNamedLoggerCtx]
    give it the level [levelForNamed] finds in the stored configuration,
    so without arguments and custom level that is the configured level.
    The loggers of the two context functions carry, as the last field
    set, the keys [KeysCtx] extracts from the context. *)
Theorem factories_levels (env : Env) (w : World) (b : nat) (backend : Backend)
    (ctx : Context) (name : string) (levels : list Z) :
  usingBackend w = Some b -> initDone w = true -> backends w !! b = Some backend ->
  (exists w' made, NewLogger env w levels = Returns (w', made)
     /\ Logger_Level made = match levels with l0 :: _ => l0 | [] => DefaultLevel end)
  /\ (exists w' made, NewNamedLogger env w name levels = Returns (w', made)
        /\ Logger_Level made = Config_levelForNamed (useConfig w) name levels)
  /\ (exists w' made, NewLoggerCtx env w ctx levels = Returns (w', made)
        /\ Logger_Level made = match levels with l0 :: _ => l0 | [] => DefaultLevel end
        /\ last (zap_fields (SugaredLogger made)) = Some (KeysCtx w ctx))
  /\ (exists w' made, NewNamedLoggerCtx env w ctx name levels = Returns (w', made)
        /\ Logger_Level made = Config_levelForNamed (useConfig w) name levels
        /\ last (zap_fields (SugaredLogger made)) = Some (KeysCtx w ctx)).
Proof.
  intros Hu Hd Hb.
  unfold NewLogger, NewNamedLogger, NewLoggerCtx, NewNamedLoggerCtx.
  rewrite Hu, Hd. simpl.
  destruct (Backend_newLoggerForLevels_returns env (writers w) backend levels)
    as (r1 & b1 & z1 & H1 & _ & _).
  destruct (Backend_NewNamedLogger_returns env (writers w) backend name
              [Config_levelForNamed (useConfig w) name levels])
    as (r2 & b2 & lg2 & H2 & Hl2 & _ & _).
  simpl in Hl2.
  split; [| split; [| split]].
  - destruct (call_backend_returns w b backend
                (fun r bk => Backend_NewLogger env r bk levels) _ _ _ Hb H1)
      as (w' & -> & _). eauto.
  - destruct (call_backend_returns w b backend
                (fun r bk => Backend_NewNamedLogger env r bk name
                               [Config_levelForNamed (useConfig w) name levels]) _ _ _ Hb H2)
      as (w' & -> & _). eauto.
  - destruct (call_backend_returns w b backend
                (fun r bk => Backend_NewLoggerCtx env r bk ctx levels) _ _ _ Hb H1)
      as (w' & -> & _). simpl. do 2 eexists. split; [reflexivity |]. split; [reflexivity |].
    simpl. apply last_snoc.
  - destruct (call_backend_returns w b backend
                (fun r bk => Backend_NewNamedLoggerCtx env r bk ctx name
                               [Config_levelForNamed (useConfig w) name levels]) _ _ _ Hb H2)
      as (w' & -> & _). simpl. do 2 eexists. split; [reflexivity |]. split; [exact Hl2 |].
    simpl. apply last_snoc.
Qed.

Lemma factories_levels_witness :
  exists w' made,
    NewNamedLogger quiet_env ready_World "svc" [] = Returns (w', made)
    /\ Logger_Level made = LevelInfo.
Proof.
  assert (Hb : exists backend, backends ready_World !! 0%nat = Some backend)
    by (vm_compute; eauto).
  destruct Hb as [backend Hb].
  destruct (factories_levels quiet_env ready_World 0%nat backend context_Background "svc" []
              eq_refl eq_refl Hb) as (_ & (w' & made & Hn & Hl) & _).
  exists w', made. split; [exact Hn |]. rewrite Hl. reflexivity.
Defined.

(** ** The backend *)

(** X8. [Backend.Init] succeeds exactly when the backend has no core
    yet, the output is syslog or the format is text or json, and the
    output can be resolved through the registry; for syslog the format
    is not looked at.  When it fails it leaves the backend and the
    registry as they were. *)
Theorem Backend_Init_succeeds_iff (env : Env) (registry : Writers) (backend : Backend)
    (config : Config) :
  ((exists registry' backend',
      Backend_Init env registry backend config = (registry', backend', None))
   <-> _core backend = None
       /\ (c_Output config = SysLog
           \/ c_Format config = FormatText \/ c_Format config = FormatJSON)
       /\ exists syncer, snd (Output env registry (c_Output config)) = inl syncer)
  /\ (forall registry' backend' err,
        Backend_Init env registry backend config = (registry', backend', Some err) ->
        registry' = registry /\ backend' = backend).
Proof.
  unfold Backend_Init, Backend_makeEncoder. split.
  - destruct (_core backend) as [z |].
    { split; [intros (? & ? & [=]) | intros [[=] _]]. }
    destruct (String.eqb (c_Output config) SysLog) eqn:Es.
    { apply String.eqb_eq in Es.
      destruct (Output env registry (c_Output config)) as [r1 [s | e]]; simpl.
      - split; [intros _; eauto 6 | eauto].
      - split; [intros (? & ? & [=]) | intros (_ & _ & ? & [=])]. }
    apply String.eqb_neq in Es.
    destruct (String.eqb (c_Format config) FormatText) eqn:Et.
    { apply String.eqb_eq in Et.
      destruct (Output env registry (c_Output config)) as [r1 [s | e]]; simpl.
      - split; [intros _; eauto 6 | eauto].
      - split; [intros (? & ? & [=]) | intros (_ & _ & ? & [=])]. }
    apply String.eqb_neq in Et.
    destruct (String.eqb (c_Format config) FormatJSON) eqn:Ej.
    { apply String.eqb_eq in Ej.
      destruct (Output env registry (c_Output config)) as [r1 [s | e]]; simpl.
      - split; [intros _; eauto 6 | eauto].
      - split; [intros (? & ? & [=]) | intros (_ & _ & ? & [=])]. }
    apply String.eqb_neq in Ej.
    split; [intros (? & ? & [=]) | intros (_ & [? | [? | ?]] & _); congruence].
  - intros registry' backend' err.
    destruct (_core backend); [now intros [= <- <-] |].
    match goal with
    | |- context [match ?e with inl _ => _ | inr _ => _ end] => destruct e
    end; [| now intros [= <- <-]].
    destruct (Output env registry (c_Output config)) as [r1 [s | e1]] eqn:Eo; [discriminate |].
    intros [= <- <- _]. unfold Output in Eo. apply registeredOutput_cases in Eo.
    destruct Eo as [[-> _] | (? & _ & [=] & _)]. tauto.
Qed.

Lemma Backend_Init_succeeds_iff_witness :
  (exists registry' backend',
     Backend_Init quiet_env newWritersRegistry new_Backend
       {| c_Level := LevelInfo; c_Format := "xml"; c_Output := SysLog;
          c_CustomLevels := ∅; c_contextExtractors := nil_map |}
     = (registry', backend', None))
  /\ Backend_Init deaf_env newWritersRegistry new_Backend
       {| c_Level := LevelInfo; c_Format := FormatText; c_Output := "/var/log/app.log";
          c_CustomLevels := ∅; c_contextExtractors := nil_map |}
     = (newWritersRegistry, new_Backend, Some (errors_New "open: permission denied")).
Proof.
  split.
  - apply (proj1 (Backend_Init_succeeds_iff quiet_env newWritersRegistry new_Backend _)).
    split; [reflexivity |]. split; [left; reflexivity |]. eexists. reflexivity.
  - destruct (Backend_Init deaf_env newWritersRegistry new_Backend
                {| c_Level := LevelInfo; c_Format := FormatText; c_Output := "/var/log/app.log";
                   c_CustomLevels := ∅; c_contextExtractors := nil_map |})
      as [[r' b'] oerr] eqn:E.
    assert (He : oerr = Some (errors_New "open: permission denied"))
      by (vm_compute in E; congruence).
    subst oerr.
    destruct (proj2 (Backend_Init_succeeds_iff deaf_env newWritersRegistry new_Backend _)
                _ _ _ E) as [-> ->].
    reflexivity.
Defined.

Lemma Backend_newLoggerForLevels_fresh (env : Env) (registry : Writers) (backend : Backend)
    (levels : list Z) :
  _core backend = None ->
  exists registry' backend' made,
    Backend_newLoggerForLevels env registry backend levels
    = Returns (registry', backend', made)
    /\ is_Ready backend' /\ _config backend' = NewConfig
    /\ Logger_Level made = match levels with l0 :: _ => l0 | [] => DefaultLevel end.
Proof.
  intros Hc. unfold Backend_newLoggerForLevels. rewrite Hc.
  destruct (Backend_Init_default env registry backend Hc) as (r' & b' & Hi & Hr & Hcfg).
  unfold Backend_MustInit. rewrite Hi.
  unfold is_Ready in Hr. destruct (_core b') as [z |] eqn:Hc'; [| congruence].
  simpl. do 3 eexists. split; [reflexivity |]. unfold is_Ready. rewrite Hc'. auto.
Qed.

(** X9. The first logger asked of a backend that was never initialised
    initialises it with the default configuration, whatever the call:
    the call returns, the logger has the first level passed
    ([DefaultLevel] if none), and afterwards the backend is ready with
    [NewConfig] stored, so that an [Init] with any configuration is
    refused as already configured. *)
Theorem Backend_first_logger_locks_defaults (env : Env) (registry : Writers)
    (backend : Backend) (c : backend_call) :
  _core backend = None ->
  makes_logger c = true ->
  let after := backend_step env (registry, backend) c in
  is_Ready (snd after)
  /\ _config (snd after) = NewConfig
  /\ (forall config,
        Backend_Init env (fst after) (snd after) config
        = (fst after, snd after, Some already_configured))
  /\ (forall levels, exists registry' backend' made,
        Backend_NewLogger env registry backend levels = Returns (registry', backend', made)
        /\ Logger_Level made = match levels with l0 :: _ => l0 | [] => DefaultLevel end).
Proof.
  intros Hc Hcall after.
  assert (Hnamed : forall name levels, exists r' b' made,
            Backend_NewNamedLogger env registry backend name levels = Returns (r', b', made)
            /\ is_Ready b' /\ _config b' = NewConfig).
  { intros name levels. unfold Backend_NewNamedLogger.
    match goal with
    | |- context [Backend_newLoggerForLevels env registry backend ?ls] =>
      destruct (Backend_newLoggerForLevels_fresh env registry backend ls Hc)
        as (r' & b' & made & -> & Hr & Hcfg & _)
    end.
    eauto 7. }
  assert (Hafter : is_Ready (snd after) /\ _config (snd after) = NewConfig).
  { subst after. destruct c; simpl.
    - discriminate Hcall.
    - discriminate Hcall.
    - unfold Backend_NewLogger.
      destruct (Backend_newLoggerForLevels_fresh env registry backend levels Hc)
        as (r' & b' & made & -> & Hr & Hcfg & _). auto.
    - unfold Backend_NewLoggerCtx.
      destruct (Backend_newLoggerForLevels_fresh env registry backend levels Hc)
        as (r' & b' & made & -> & Hr & Hcfg & _). auto.
    - destruct (Hnamed name levels) as (r' & b' & made & -> & Hr & Hcfg). auto.
    - unfold Backend_NewNamedLoggerCtx.
      destruct (Hnamed name levels) as (r' & b' & made & -> & Hr & Hcfg). auto. }
  destruct Hafter as [Hr Hcfg].
  split; [exact Hr |]. split; [exact Hcfg |]. split.
  - intros config. now apply Backend_Init_configured.
  - intros levels. unfold Backend_NewLogger.
    destruct (Backend_newLoggerForLevels_fresh env registry backend levels Hc)
      as (r' & b' & made & -> & _ & _ & Hl). eauto.
Qed.

Lemma Backend_first_logger_locks_defaults_witness :
  Backend_Init deaf_env
    (fst (backend_step deaf_env (newWritersRegistry, new_Backend)
            (bc_NewNamedLogger "svc" [LevelDebug])))
    (snd (backend_step deaf_env (newWritersRegistry, new_Backend)
            (bc_NewNamedLogger "svc" [LevelDebug])))
    svc_config
  = (fst (backend_step deaf_env (newWritersRegistry, new_Backend)
            (bc_NewNamedLogger "svc" [LevelDebug])),
     snd (backend_step deaf_env (newWritersRegistry, new_Backend)
            (bc_NewNamedLogger "svc" [LevelDebug])),
     Some already_configured).
Proof.
  apply (Backend_first_logger_locks_defaults deaf_env newWritersRegistry new_Backend
           (bc_NewNamedLogger "svc" [LevelDebug]) eq_refl eq_refl).
Defined.

(** X10. On the seven levels [zapLevel] keeps the order, stays between
    zap's debug and fatal levels, and sends two levels to the same zap
    level only when they are trace and debug.  Any other number is cut
    to eight bits, so a number from -128 to 127 is passed as it is and
    one 256 higher gives the same zap level unless it is one of the
    seven. *)
Theorem zapLevel_order :
  (forall l1 l2, In l1 defined_levels -> In l2 defined_levels -> l1 <= l2 ->
     zapLevel l1 <= zapLevel l2)
  /\ (forall l, In l defined_levels -> zapcore_DebugLevel <= zapLevel l <= zapcore_FatalLevel)
  /\ (forall l1 l2, In l1 defined_levels -> In l2 defined_levels ->
        zapLevel l1 = zapLevel l2 ->
        l1 = l2 \/ (l1 <= LevelDebug /\ l2 <= LevelDebug))
  /\ (forall l, ~ In l defined_levels -> -128 <= l <= 127 -> zapLevel l = l)
  /\ (forall l, ~ In l defined_levels -> ~ In (l + 256) defined_levels ->
        zapLevel (l + 256) = zapLevel l)
  /\ (forall l, -128 <= zapLevel l <= 127).
Proof.
  assert (Hdef : forall l, In l defined_levels -> 0 <= l <= 6).
  { intros l Hl. unfold defined_levels, LevelTrace, LevelDebug, LevelInfo, LevelWarn,
      LevelError, LevelPanic, LevelFatal in Hl. simpl in Hl. lia. }
  assert (Hundef : forall l, ~ In l defined_levels -> zapLevel l = to_int8 l).
  { intros l Hl. apply is_defined_level_false in Hl.
    unfold is_defined_level in Hl. rewrite !orb_false_iff in Hl.
    destruct Hl as ((((((H0 & H1) & H2) & H3) & H4) & H5) & H6).
    unfold zapLevel. now rewrite H0, H1, H2, H3, H4, H5, H6. }
  assert (Hval : forall l, 0 <= l <= 6 ->
            zapLevel l = if l =? 0 then -1 else if l =? 5 then 4 else if l =? 6 then 5 else l - 2).
  { intros l Hl.
    assert (Hc : l = 0 \/ l = 1 \/ l = 2 \/ l = 3 \/ l = 4 \/ l = 5 \/ l = 6) by lia.
    destruct Hc as [-> | [-> | [-> | [-> | [-> | [-> | ->]]]]]]; reflexivity. }
  assert (Hrange : forall l, -128 <= zapLevel l <= 127).
  { intros l. destruct (is_defined_level l) eqn:E.
    - apply is_defined_level_In, Hdef in E. rewrite Hval by lia.
      repeat match goal with |- context [Z.eqb ?a ?b] => destruct (Z.eqb_spec a b) end; lia.
    - apply is_defined_level_false in E. rewrite Hundef by assumption. unfold to_int8.
      pose proof (Z.mod_pos_bound (l + 128) 256). lia. }
  split; [| split; [| split; [| split; [| split]]]].
  - intros l1 l2 H1 H2 Hle. apply Hdef in H1, H2. rewrite !Hval by lia.
    repeat match goal with |- context [Z.eqb ?a ?b] => destruct (Z.eqb_spec a b) end; lia.
  - intros l Hl. apply Hdef in Hl. rewrite Hval by lia.
    unfold zapcore_DebugLevel, zapcore_FatalLevel.
    repeat match goal with |- context [Z.eqb ?a ?b] => destruct (Z.eqb_spec a b) end; lia.
  - intros l1 l2 H1 H2. apply Hdef in H1, H2. rewrite !Hval by lia. unfold LevelDebug.
    repeat match goal with |- context [Z.eqb ?a ?b] => destruct (Z.eqb_spec a b) end; lia.
  - intros l Hl Hb. rewrite Hundef by assumption. unfold to_int8.
    rewrite Z.mod_small by lia. lia.
  - intros l Hl Hl'. rewrite !Hundef by assumption. unfold to_int8.
    replace (l + 256 + 128) with (l + 128 + 1 * 256) by lia.
    now rewrite Z.mod_add by lia.
  - exact Hrange.
Qed.

Lemma zapLevel_order_witness :
  zapLevel LevelWarn <= zapLevel LevelPanic
  /\ zapLevel (-1) = zapcore_DebugLevel
  /\ zapLevel 263 = zapLevel 7.
Proof.
  destruct zapLevel_order as (Hmono & _ & _ & Hsmall & Hwrap & _).
  split; [| split].
  - apply Hmono; [apply is_defined_level_In; reflexivity
                 | apply is_defined_level_In; reflexivity
                 | unfold LevelWarn, LevelPanic; lia].
  - apply (Hsmall (-1)); [apply is_defined_level_false; reflexivity | lia].
  - apply (Hwrap 7); apply is_defined_level_false; reflexivity.
Defined.

(** ** Loggers *)

Lemma Logger_WithLevel_eq (lg : zapLogger) (l : Z) :
  Logger_WithLevel lg l = {| SugaredLogger := SugaredLogger lg; level := l |}.
Proof.
  unfold Logger_WithLevel, Logger_IsEnabledForLevel, Level_IsEnabledForLevel.
  simpl. replace (l >=? l) with true by (symmetry; apply Z.geb_le; lia). reflexivity.
Qed.

(** X11. [WithLevel] gives a logger at the level asked, over the very
    zap logger of the receiver: the test that guards the tightening of
    the zap level is made on the level just set and never succeeds, so
    no option is ever added.  Hence the last of several [WithLevel]
    decides, and the level can be lowered as well as raised. *)
Theorem Logger_WithLevel_sets_level (lg : zapLogger) (l l' : Z) :
  Logger_WithLevel lg l = {| SugaredLogger := SugaredLogger lg; level := l |}
  /\ Logger_Level (Logger_WithLevel lg l) = l
  /\ zap_options (SugaredLogger (Logger_WithLevel lg l)) = zap_options (SugaredLogger lg)
  /\ Logger_WithLevel (Logger_WithLevel lg l) l' = Logger_WithLevel lg l'
  /\ (forall k v, Logger_Level (Logger_WithKey (Logger_WithLevel lg l) k v) = l)
  /\ (forall keys, Logger_Level (Logger_WithKeys (Logger_WithLevel lg l) keys) = l).
Proof.
  rewrite !Logger_WithLevel_eq. repeat split.
Qed.

(** X12. A logging method passes its message on exactly when it is
    [Error] or [Fatal], which are never filtered, or when its level is
    at least the level of the logger.  So a method at least as severe as
    one that is passed on is passed on too, and it reaches zap at a level
    at least as high; [Trace] reaches zap as a debug message. *)
Theorem Logger_log_filter (lg : zapLogger) (c c' : log_call) :
  (is_Some (Logger_log lg c)
   <-> c = log_Error \/ c = log_Fatal \/ Logger_Level lg <= log_call_level c)
  /\ (log_call_level c <= log_call_level c' ->
      forall z, Logger_log lg c = Some z ->
                exists z', Logger_log lg c' = Some z' /\ z <= z')
  /\ (forall z, Logger_log lg c = Some z ->
                z = zapLevel (log_call_level c))
  /\ (forall l, is_Some (Logger_log (Logger_WithLevel lg l) c)
                <-> c = log_Error \/ c = log_Fatal \/ l <= log_call_level c).
Proof.
  assert (Hiff : forall g k, is_Some (Logger_log g k)
            <-> k = log_Error \/ k = log_Fatal \/ Logger_Level g <= log_call_level k).
  { intros g k. unfold Logger_log, Logger_IsEnabledForLevel, Level_IsEnabledForLevel,
      Logger_Level.
    destruct k; simpl;
      try (match goal with |- context [Z.geb ?a ?b] => destruct (Z.geb_spec a b) end);
      unfold LevelTrace, LevelDebug, LevelInfo, LevelWarn, LevelError, LevelFatal in *;
      (split; [intros [? Hs]; try discriminate Hs; try (right; right; lia); tauto
              | intros [Hc | [Hc | Hc]]; try discriminate Hc; try lia; eauto]). }
  assert (Hz : forall g k z, Logger_log g k = Some z -> z = zapLevel (log_call_level k)).
  { intros g k z. unfold Logger_log.
    destruct k; simpl; try (destruct (Logger_IsEnabledForLevel g _); [| discriminate]);
      now intros [= <-]. }
  split; [apply Hiff |]. split; [| split; [apply Hz |]].
  - intros Hle z Hs.
    assert (Hs' : is_Some (Logger_log lg c')).
    { apply Hiff. assert (Hc : is_Some (Logger_log lg c)) by eauto. apply Hiff in Hc.
      destruct c, c'; simpl in *;
        unfold LevelTrace, LevelDebug, LevelInfo, LevelWarn, LevelError, LevelFatal in *;
        try tauto; try lia;
        destruct Hc as [Hc | [Hc | Hc]]; try discriminate Hc; right; right; lia. }
    destruct Hs' as [z' Hs']. exists z'. split; [exact Hs' |].
    apply Hz in Hs, Hs'. subst z z'.
    destruct c, c'; simpl in *;
      unfold LevelTrace, LevelDebug, LevelInfo, LevelWarn, LevelError, LevelFatal in *;
      try lia; vm_compute; discriminate.
  - intros l. rewrite Hiff, Logger_WithLevel_eq. reflexivity.
Qed.

Lemma Logger_log_filter_witness :
  Logger_log (Logger_WithLevel warn_logger LevelFatal) log_Error = Some zapcore_ErrorLevel
  /\ Logger_log warn_logger log_Info = None
  /\ exists z', Logger_log warn_logger log_Fatal = Some z' /\ zapcore_WarnLevel <= z'.
Proof.
  destruct (Logger_log_filter (Logger_WithLevel warn_logger LevelFatal) log_Error log_Error)
    as (Hiff & _ & Hz & _).
  destruct (proj2 Hiff (or_introl eq_refl)) as [z Hs].
  split; [rewrite Hs; f_equal; exact (Hz z Hs) |].
  split; [reflexivity |].
  apply (proj1 (proj2 (Logger_log_filter warn_logger log_Warn log_Fatal))).
  - unfold log_call_level, LevelWarn, LevelFatal. lia.
  - reflexivity.
Defined.

(** ** The registry: put, get and del *)

Lemma length_eqb_0 (name : string) : (String.length name =? 0)%nat = true <-> name = ""%string.
Proof.
  destruct name; simpl; [tauto |]. split; discriminate.
Qed.

(** X13. [put] files a writer exactly when the writer is not nil, the
    name is not empty and the name is free; otherwise it returns an
    error that wraps the module marker and changes nothing.  After a
    successful [put], [get] and the resolution of the name as an output
    return the writer filed, without opening anything; the other names
    are as before; a writer that is a locked writer already is filed as
    it is, any other is wrapped in a new locked writer with a free
    mutex. *)
Theorem WritersRegistry_put_get (env : Env) (registry : Writers) (name : string)
    (writer : option io_Writer) :
  let result := WritersRegistry_put registry name writer in
  (snd result = None
   <-> writer <> None /\ name <> ""%string /\ reg_writers registry !! name = None)
  /\ (forall err, snd result = Some err ->
        fst result = registry /\ is_module_error err = true)
  /\ (snd result = None ->
      exists a,
        WritersRegistry_get (fst result) name = (Some a, None)
        /\ registeredOutput env (fst result) name = (fst result, inl a)
        /\ (forall other, other <> name ->
              reg_writers (fst result) !! other = reg_writers registry !! other)
        /\ (forall a0, writer = Some (writer_locked a0) ->
              a = a0 /\ lw_heap (fst result) = lw_heap registry)
        /\ ((forall a0, writer <> Some (writer_locked a0)) ->
            a = length (lw_heap registry)
            /\ exists ws, lw_heap (fst result)
                          = lw_heap registry ++ [{| stream := Some ws; mu := false |}])).
Proof.
  intros result. subst result. unfold WritersRegistry_put.
  destruct writer as [w |]; simpl.
  2: { split; [split; [discriminate | tauto] |].
       split; [intros err [= <-]; auto | discriminate]. }
  destruct (String.length name =? 0)%nat eqn:En; simpl.
  { apply length_eqb_0 in En.
    split; [split; [discriminate | tauto] |].
    split; [intros err [= <-]; auto | discriminate]. }
  assert (Hne : name <> ""%string).
  { intros ->. discriminate En. }
  destruct (reg_writers registry !! name) as [old |] eqn:El; simpl.
  { split; [split; [discriminate | intros (_ & _ & [=])] |].
    split; [intros err [= <-]; auto | discriminate]. }
  split; [split; [intros _; repeat split; [discriminate | exact Hne] | reflexivity] |].
  split; [discriminate |]. intros _.
  exists (snd (wrap (lw_heap registry) w)).
  unfold WritersRegistry_get, registeredOutput. simpl. rewrite lookup_insert_eq.
  split; [reflexivity |]. split; [reflexivity |]. split.
  { intros other Ho. now rewrite lookup_insert_ne by congruence. }
  split.
  - intros a0 [= ->]. simpl. auto.
  - intros Hnl. destruct w as [a0 | ws | write]; simpl; [now destruct (Hnl a0) | eauto | eauto].
Qed.

Lemma WritersRegistry_put_get_witness :
  exists a,
    WritersRegistry_put newWritersRegistry "audit"
      (Some (writer_plain (ws_Write quiet_stream)))
    = ({| lw_heap := [{| stream := Some (syncerWrapper (ws_Write quiet_stream)); mu := false |}];
          reg_writers := {[ "audit"%string := 0%nat ]} |}, None)
    /\ WritersRegistry_get
         (fst (WritersRegistry_put newWritersRegistry "audit"
                 (Some (writer_plain (ws_Write quiet_stream))))) "audit"
       = (Some a, None)
    /\ registeredOutput deaf_env
         (fst (WritersRegistry_put newWritersRegistry "audit"
                 (Some (writer_plain (ws_Write quiet_stream))))) "audit"
       = (fst (WritersRegistry_put newWritersRegistry "audit"
                 (Some (writer_plain (ws_Write quiet_stream)))), inl a).
Proof.
  destruct (WritersRegistry_put_get deaf_env newWritersRegistry "audit"
              (Some (writer_plain (ws_Write quiet_stream)))) as (_ & _ & Hok).
  destruct (Hok eq_refl) as (a & Hg & Ho & _).
  exists a. split; [reflexivity |]. split; [exact Hg | exact Ho].
Defined.

(** X14. After [del] the name is unknown: [get] returns an error that
    wraps the module marker, while the other names and every locked
    writer are as before, and [del] of an unknown name changes nothing.
    Resolving the name as an output again makes a new locked writer at
    a fresh address: it is not the writer filed before, which stays as
    it was for whoever still holds it. *)
Theorem WritersRegistry_del_forgets (env : Env) (registry : Writers) (name : string) :
  let r1 := WritersRegistry_del registry name in
  (exists err, WritersRegistry_get r1 name = (None, Some err) /\ is_module_error err = true)
  /\ (forall other, other <> name ->
        WritersRegistry_get r1 other = WritersRegistry_get registry other)
  /\ lw_heap r1 = lw_heap registry
  /\ (reg_writers registry !! name = None -> r1 = registry)
  /\ (forall r2 w, registeredOutput env r1 name = (r2, inl w) ->
        w = length (lw_heap registry)
        /\ WritersRegistry_get r2 name = (Some w, None)
        /\ forall old lw, lw_heap registry !! old = Some lw ->
                          w <> old /\ lw_heap r2 !! old = Some lw).
Proof.
  intros r1. subst r1. unfold WritersRegistry_del, WritersRegistry_get. simpl.
  split; [| split; [| split; [| split]]].
  - rewrite lookup_delete_eq. eexists. split; reflexivity.
  - intros other Ho. now rewrite lookup_delete_ne by congruence.
  - reflexivity.
  - intros Hn. destruct registry as [heap m]. simpl in *. f_equal. now apply delete_id.
  - intros r2 w Ho. apply registeredOutput_cases in Ho. simpl in Ho.
    rewrite lookup_delete_eq in Ho.
    destruct Ho as [[_ [=]] | (ws & _ & [= ->] & Hh & Hm)].
    split; [reflexivity |]. split.
    + rewrite Hm, lookup_insert_eq. reflexivity.
    + intros old lw Hold. split.
      * apply lookup_lt_Some in Hold. lia.
      * rewrite Hh. now apply lookup_app_l_Some.
Qed.

Lemma WritersRegistry_del_forgets_witness :
  exists r2,
    registeredOutput quiet_env (WritersRegistry_del svc_registry "stdout") "stdout"
    = (r2, inl 1%nat)
    /\ reg_writers svc_registry !! "stdout"%string = Some 0%nat
    /\ lw_heap r2 !! 0%nat = lw_heap svc_registry !! 0%nat.
Proof.
  destruct (registeredOutput quiet_env (WritersRegistry_del svc_registry "stdout") "stdout")
    as [r2 [w | e]] eqn:E; [| vm_compute in E; discriminate E].
  destruct (WritersRegistry_del_forgets quiet_env svc_registry "stdout")
    as (_ & _ & _ & _ & Hnew).
  destruct (Hnew r2 w E) as (-> & _ & Hold).
  exists r2. split; [reflexivity |]. split; [reflexivity |].
  destruct (Hold 0%nat {| stream := Some quiet_stream; mu := false |} eq_refl) as [_ ->].
  reflexivity.
Defined.

(** ** Locked writers: writing, closing and syncing *)

(** X15. While a locked writer is open and its mutex free, every
    [Write] returns what the stream returns for the bytes, errors
    included, and leaves the writer open with the mutex free: after any
    number of writes the calls that follow run as on the writer at the
    start. *)
Theorem LockedWriter_writes_pass_through (ws : WriteSyncer) (ps : list string)
    (calls : list writer_call) :
  writer_run {| stream := Some ws; mu := false |} (map call_Write ps ++ calls)
  = map (fun p => Returns (reply_Write (fst (ws_Write ws p)) (snd (ws_Write ws p)))) ps
    ++ writer_run {| stream := Some ws; mu := false |} calls.
Proof.
  induction ps as [| p ps IH]; [reflexivity |].
  simpl. unfold LockedWriter_Write. simpl.
  destruct (ws_Write ws p) as [n err]. simpl. now rewrite IH.
Qed.

(** X16. [Close] on an open writer returns what the stream's own
    [Close] returns, nil when the stream has none; every [Close] after
    it returns nil; and a [Sync] after it panics on the nil stream, on
    which nothing that follows is reached. *)
Theorem LockedWriter_after_Close (ws : WriteSyncer) (n : nat) (calls : list writer_call) :
  writer_run {| stream := Some ws; mu := false |}
             (call_Close :: repeat call_Close n ++ call_Sync :: calls)
  = Returns (reply_Close (match ws_Close ws with Some r => r | None => None end))
    :: repeat (Returns (reply_Close None)) n ++ [Panics nil_dereference].
Proof.
  simpl. f_equal.
  induction n as [| n IH]; [reflexivity |]. simpl. now rewrite IH.
Qed.

(** X17. A writer without [Sync] and [Close] of its own that is
    wrapped and locked takes writes like the writer itself, syncs to
    nil, and closes to nil; once it is locked, locking it again returns
    the same locked writer and allocates nothing. *)
Theorem wrap_plain_writer (heap : list LockedWriter) (write : string -> Z * option error)
    (p : string) :
  let made := wrap heap (writer_plain write) in
  snd made = length heap
  /\ (forall a lw, heap !! a = Some lw -> fst made !! a = Some lw)
  /\ wrap (fst made) (writer_locked (snd made)) = made
  /\ exists lw,
       fst made !! snd made = Some lw
       /\ writer_run lw [call_Write p; call_Sync; call_Close; call_Close]
          = [Returns (reply_Write (fst (write p)) (snd (write p)));
             Returns (reply_Sync None);
             Returns (reply_Close None);
             Returns (reply_Close None)].
Proof.
  simpl. split; [reflexivity |]. split; [| split; [reflexivity |]].
  - intros a lw Ha. now apply lookup_app_l_Some.
  - eexists. split.
    + rewrite lookup_app_r by lia. rewrite Nat.sub_diag. reflexivity.
    + simpl. unfold LockedWriter_Write. simpl. destruct (write p). reflexivity.
Qed.

Lemma wrap_plain_writer_witness :
  fst (wrap [{| stream := None; mu := true |}] (writer_plain (ws_Write quiet_stream)))
    !! 0%nat = Some {| stream := None; mu := true |}.
Proof.
  apply (proj1 (proj2 (wrap_plain_writer [{| stream := None; mu := true |}]
                         (ws_Write quiet_stream) "line"))).
  reflexivity.
Defined.

(** ** The syslog writer *)

(** X18. [Write] on a connected syslog writer writes to the connection
    it has and dials nothing.  On a writer without a connection it dials
    first: if that fails it returns no bytes and the connect error,
    which wraps the module marker, and stays without connection; if it
    succeeds it writes to the new connection and keeps it.  [Disconnect]
    drops the connection and is safe to repeat; [Sync] does nothing.
    The writer [NewSyslogWriter] returns is connected, and fails with a
    twice wrapped error when the address cannot be dialled. *)
Theorem SyslogWriter_Write_redials (env : Env) (s : SyslogWriter) (p : string) :
  (forall c, conn s = Some c -> SyslogWriter_Write env s p = Returns (s, c p))
  /\ (forall err, conn s = None -> net_Dial env (network s) (raddr s) = inr err ->
        SyslogWriter_Write env s p
        = Returns (s, (0, Some (fmt_Errorf "%w: connect syslog: %v" Error [op_error err]))))
  /\ (forall c, conn s = None -> net_Dial env (network s) (raddr s) = inl c ->
        SyslogWriter_Write env s p
        = Returns ({| network := network s; raddr := raddr s; conn := Some c |}, c p))
  /\ conn (SyslogWriter_Disconnect s) = None
  /\ SyslogWriter_Disconnect (SyslogWriter_Disconnect s) = SyslogWriter_Disconnect s
  /\ (forall net addr,
        match new_SyslogWriter env net addr, NewSyslogWriter env net addr with
        | inl made, inl ws =>
          SyslogWriter_Write env made p = Returns (made, ws_Write ws p)
          /\ ws_Sync ws = SyslogWriter_Sync made /\ ws_Close ws = None
        | inr e, inr e' => e = e' /\ is_module_error e = true
        | _, _ => False
        end).
Proof.
  unfold SyslogWriter_Write, SyslogWriter_connect, SyslogWriter_Disconnect.
  split; [| split; [| split; [| split; [| split]]]].
  - intros c Hc. rewrite Hc. simpl. now rewrite Hc.
  - intros err Hc Hd. rewrite Hc. simpl. rewrite Hd. destruct s; simpl in *. now subst.
  - intros c Hc Hd. rewrite Hc. simpl. now rewrite Hd.
  - destruct (conn s) eqn:E; [reflexivity | exact E].
  - destruct (conn s) eqn:E; simpl; [reflexivity | now rewrite E].
  - intros net addr.
    unfold new_SyslogWriter, NewSyslogWriter, SyslogWriter_connect. simpl.
    destruct (net_Dial env net addr) as [c | e]; simpl; auto.
Qed.

Lemma SyslogWriter_Write_redials_witness :
  SyslogWriter_Write quiet_env
    (SyslogWriter_Disconnect
       {| network := "udp"; raddr := "localhost:514"; conn := Some (ws_Write quiet_stream) |})
    "entry"
  = Returns ({| network := "udp"; raddr := "localhost:514";
                conn := Some (ws_Write quiet_stream) |}, (5, None))
  /\ SyslogWriter_Write deaf_env
       {| network := "udp"; raddr := "localhost:514"; conn := None |} "entry"
     = Returns ({| network := "udp"; raddr := "localhost:514"; conn := None |},
                (0, Some (fmt_Errorf "%w: connect syslog: %v" Error
                            [op_error (errors_New "dial udp: connection refused")]))).
Proof.
  split.
  - apply (proj1 (proj2 (proj2 (SyslogWriter_Write_redials quiet_env
             (SyslogWriter_Disconnect
                {| network := "udp"; raddr := "localhost:514";
                   conn := Some (ws_Write quiet_stream) |}) "entry")))
             (ws_Write quiet_stream)); reflexivity.
  - apply (proj1 (proj2 (SyslogWriter_Write_redials deaf_env
             {| network := "udp"; raddr := "localhost:514"; conn := None |} "entry"))
             (errors_New "dial udp: connection refused")); reflexivity.
Defined.

(** ** The Default logger *)

(** X19. In a session that is ready, the first use of a [Default]
    logger makes its inner logger at the level of the stored
    configuration, and that logger is kept: also after the session was
    initialised again with another level, [IsEnabledForLevel] and the
    logging methods follow the level found at the first use, while
    [Level] always answers [DefaultLevel].  Before the session has a
    backend the first use panics with the set-backend-first error. *)
Theorem Default_inner_logger (env : Env) (w : World) (b : nat) (backend : Backend) :
  usingBackend w = Some b -> initDone w = true -> backends w !! b = Some backend ->
  exists w' l',
    Default_checkInnerLogger env w {| d_mu := false; logger := None |} = Returns (w', l')
    /\ d_mu l' = false
    /\ (exists inner, logger l' = Some inner /\ Logger_Level inner = c_Level (useConfig w))
    /\ Default_Level l' = DefaultLevel
    /\ (forall env2 w2 lvl,
          Default_IsEnabledForLevel env2 w2 l' lvl
          = Returns (w2, l', lvl >=? c_Level (useConfig w)))
    /\ (forall env2 w2 c,
          exists passed, Default_log env2 w2 l' c = Returns (w2, l', passed)
          /\ (is_Some passed
              <-> c = log_Error \/ c = log_Fatal \/ c_Level (useConfig w) <= log_call_level c))
    /\ (forall env2 w2 lvl, usingBackend w2 = None ->
          Default_IsEnabledForLevel env2 w2 {| d_mu := false; logger := None |} lvl
          = Panics set_backend_first).
Proof.
  intros Hu Hd Hb.
  destruct (Backend_newLoggerForLevels_returns env (writers w) backend
              [c_Level (useConfig w)]) as (r1 & b1 & z1 & H1 & _ & _).
  destruct (call_backend_returns w b backend
              (fun r bk => Backend_NewLogger env r bk [c_Level (useConfig w)]) _ _ _ Hb H1)
    as (w' & Hcall & _).
  unfold Default_checkInnerLogger, NewLogger. simpl. rewrite Hu, Hd. simpl. rewrite Hcall.
  do 2 eexists. split; [reflexivity |]. simpl.
  split; [reflexivity |]. split; [eauto |]. split; [reflexivity |].
  split; [| split].
  - intros env2 w2 lvl. reflexivity.
  - intros env2 w2 c. unfold Default_log, Default_checkInnerLogger. simpl.
    eexists. split; [reflexivity |].
    unfold Logger_log, Logger_IsEnabledForLevel, Level_IsEnabledForLevel.
    destruct c; simpl;
      try (match goal with |- context [Z.geb ?x ?y] => destruct (Z.geb_spec x y) end);
      unfold LevelTrace, LevelDebug, LevelInfo, LevelWarn, LevelError, LevelFatal in *;
      (split; [intros [? Hs]; try discriminate Hs; try (right; right; lia); tauto
              | intros [Hc | [Hc | Hc]]; try discriminate Hc; try lia; eauto]).
  - intros env2 w2 lvl Hn.
    unfold Default_IsEnabledForLevel, Default_checkInnerLogger, NewLogger. simpl.
    now rewrite Hn.
Qed.

Lemma Default_inner_logger_witness :
  exists w' l',
    Default_checkInnerLogger quiet_env ready_World {| d_mu := false; logger := None |}
    = Returns (w', l')
    /\ Default_IsEnabledForLevel quiet_env initial_World l' LevelDebug
       = Returns (initial_World, l', false).
Proof.
  assert (Hb : exists backend, backends ready_World !! 0%nat = Some backend)
    by (vm_compute; eauto).
  destruct Hb as [backend Hb].
  destruct (Default_inner_logger quiet_env ready_World 0%nat backend eq_refl eq_refl Hb)
    as (w' & l' & Hc & _ & _ & _ & He & _).
  exists w', l'. split; [exact Hc |]. apply He.
Defined.

(** ** Level.String *)

Lemma pretty_N_char_ascii (x : N) : is_ascii_byte (pretty_N_char x) = true.
Proof. unfold pretty_N_char. repeat case_match; reflexivity. Qed.

Lemma pretty_N_go_ascii (x : N) (s : string) :
  all_ascii s = true -> all_ascii (pretty_N_go x s) = true.
Proof.
  revert s. induction (N.lt_wf_0 x) as [x _ IH]; intros s Hs.
  destruct (decide (x = 0%N)) as [-> | Hx]; [now rewrite pretty_N_go_0 |].
  rewrite pretty_N_go_step by lia. apply IH.
  - apply N.div_lt; lia.
  - simpl. now rewrite pretty_N_char_ascii.
Qed.

Lemma strconv_Itoa_ascii (z : Z) : all_ascii (strconv_Itoa z) = true.
Proof.
  unfold strconv_Itoa, pretty, pretty_Z.
  assert (Hp : forall p : positive, all_ascii (pretty p) = true).
  { intros p. unfold pretty, pretty_positive, pretty, pretty_N.
    case_decide; [reflexivity | now apply pretty_N_go_ascii]. }
  destruct z; [reflexivity | apply Hp | simpl; apply Hp].
Qed.

Lemma Level_String_unknown (l : Z) :
  ~ In l defined_levels -> Level_String l = levelUnknownName +:+ strconv_Itoa l.
Proof.
  intros Hl. apply is_defined_level_false in Hl.
  unfold is_defined_level in Hl. rewrite !orb_false_iff in Hl.
  destruct Hl as ((((((H0 & H1) & H2) & H3) & H4) & H5) & H6).
  unfold Level_String. now rewrite H0, H1, H2, H3, H4, H5, H6.
Qed.

Lemma Level_String_known (l : Z) :
  In l defined_levels -> In (Level_String l) canonical_names.
Proof.
  unfold defined_levels. simpl.
  intros H. repeat (destruct H as [<- | H]; [simpl; tauto |]). contradiction.
Qed.

Section LevelStringFacts.

Variable unicode_ToLower : string -> string.

(** X20. For each of the seven levels [String] is the text of
    [MarshalText], which [UnmarshalText] reads back as the level.  For
    every other number it is the word level followed by the decimal
    number, which [UnmarshalText] rejects.  Two different levels never
    have the same [String]. *)
Theorem Level_String_text :
  (forall l, In l defined_levels ->
     Level_MarshalText l = (Some (Level_String l), None)
     /\ forall v, Level_UnmarshalText unicode_ToLower (Some v) (Level_String l)
                  = (Some l, None))
  /\ (forall l v, ~ In l defined_levels ->
        Level_String l = ("level" +:+ strconv_Itoa l)%string
        /\ Level_UnmarshalText unicode_ToLower (Some v) (Level_String l)
           = (Some v, Some (fmt_Errorf "%w: unrecognized level: %q" Error
                              [op_string (Level_String l)])))
  /\ (forall l1 l2, Level_String l1 = Level_String l2 -> l1 = l2).
Proof.
  split; [| split].
  - intros l Hl. unfold defined_levels in Hl. simpl in Hl.
    repeat (destruct Hl as [<- | Hl]; [split; [reflexivity | intros v; reflexivity] |]).
    contradiction.
  - intros l v Hl. rewrite (Level_String_unknown l Hl). split; [reflexivity |].
    apply UnmarshalText_unknown.
    rewrite strings_ToLower_ascii by (simpl; apply strconv_Itoa_ascii).
    simpl. intros H.
    repeat (destruct H as [H | H]; [discriminate H |]). exact H.
  - intros l1 l2 Heq.
    destruct (is_defined_level l1) eqn:E1; destruct (is_defined_level l2) eqn:E2.
    + apply is_defined_level_In in E1, E2. unfold defined_levels in E1, E2.
      simpl in E1, E2.
      repeat (destruct E1 as [<- | E1]; [
        repeat (destruct E2 as [<- | E2]; [first [reflexivity | discriminate Heq] |]);
        contradiction |]).
      contradiction.
    + apply is_defined_level_In, Level_String_known in E1.
      apply is_defined_level_false in E2. rewrite (Level_String_unknown l2 E2) in Heq.
      rewrite Heq in E1. unfold canonical_names in E1. simpl in E1.
      repeat (destruct E1 as [E1 | E1]; [discriminate E1 |]). contradiction.
    + apply is_defined_level_In, Level_String_known in E2.
      apply is_defined_level_false in E1. rewrite (Level_String_unknown l1 E1) in Heq.
      rewrite <- Heq in E2. unfold canonical_names in E2. simpl in E2.
      repeat (destruct E2 as [E2 | E2]; [discriminate E2 |]). contradiction.
    + apply is_defined_level_false in E1, E2.
      rewrite (Level_String_unknown l1 E1), (Level_String_unknown l2 E2) in Heq.
      unfold levelUnknownName in Heq. simpl in Heq. injection Heq as Heq.
      unfold strconv_Itoa in Heq. now apply pretty_Z_inj in Heq.
Qed.

End LevelStringFacts.

Lemma Level_String_text_witness :
  Level_String 13 = "level13"%string
  /\ Level_UnmarshalText (fun s => s) (Some LevelInfo) (Level_String (-11))
     = (Some LevelInfo, Some (fmt_Errorf "%w: unrecognized level: %q" Error
                                [op_string "level-11"])).
Proof.
  destruct (Level_String_text (fun s => s)) as (_ & Hun & _).
  split.
  - apply (Hun 13 0). apply is_defined_level_false. reflexivity.
  - apply (Hun (-11) LevelInfo). apply is_defined_level_false. reflexivity.
Defined.

(** ** More on the configuration *)



(** Extractors for other keys leave the entry of a key as it was. *)
Lemma extractors_fold_other_keys (es : list ContextExtractorFunc)
    (m : gmap string ContextExtractorFunc) (key : string) :
  (forall e', In e' es -> fst (e' context_Background) <> key) ->
  foldl (fun m extractor => <[fst (extractor context_Background) := extractor]> m) m es !! key
  = m !! key.
Proof.
  revert m. induction es as [| e0 es IH]; intros m Hne; simpl; [reflexivity |].
  rewrite IH by (intros e' He'; apply Hne; now right).
  apply lookup_insert_ne. apply Hne. now left.
Qed.

(** X22. Without extractors [WithContextExtractors] returns the
    configuration as it is.  With at least one extractor it panics on a
    configuration whose extractor map is nil (the zero value, a struct
    literal), on the first assignment.  On a configuration whose map
    was made, as [NewConfig] makes it, it returns: each extractor is
    filed under the key it returns for the background context; a later
    extractor for a key replaces an earlier one, in the same call or in
    a later call, and the extractors of other keys stay; the map stays
    a made one and nothing else of the configuration changes, so the
    call cannot make [Validate] fail. *)
Theorem WithContextExtractors_replaces (config : Config)
    (before after : list ContextExtractorFunc) (e : ContextExtractorFunc)
    (visited : list (string * Z)) :
  let k := fst (e context_Background) in
  WithContextExtractors [] config = Returns config
  /\ (c_contextExtractors config = nil_map ->
        WithContextExtractors (before ++ e :: after) config = Panics nil_map_assignment)
  /\ (c_contextExtractors config <> nil_map ->
        exists config',
          WithContextExtractors (before ++ e :: after) config = Returns config'
          /\ c_contextExtractors config' <> nil_map
          /\ ((forall e', In e' after -> fst (e' context_Background) <> k) ->
                c_contextExtractors config' !! k = Some e)
          /\ (exists config1 config2,
                 WithContextExtractors before config = Returns config1
                 /\ WithContextExtractors [e] config1 = Returns config2
                 /\ c_contextExtractors config2 !! k = Some e)
          /\ (forall k', (forall e', In e' (before ++ e :: after) ->
                                     fst (e' context_Background) <> k') ->
                c_contextExtractors config' !! k' = c_contextExtractors config !! k')
          /\ c_Level config' = c_Level config /\ c_Format config' = c_Format config
          /\ c_Output config' = c_Output config
          /\ c_CustomLevels config' = c_CustomLevels config
          /\ Config_Validate_in visited config' = Config_Validate_in visited config).
Proof.
  intros k. split; [reflexivity |]. split.
  - intros Hnil. unfold WithContextExtractors. rewrite Hnil.
    destruct before; reflexivity.
  - intros Hmade. destruct (c_contextExtractors config) as [| m] eqn:Em; [congruence |].
    eexists. split; [exact (WithContextExtractors_made_map _ config m Em) |].
    split; [discriminate |]. split; [| split; [| split]].
    + intros Hafter.
      change (foldl (fun m extractor => <[fst (extractor context_Background) := extractor]> m)
                    m (before ++ e :: after) !! k = Some e).
      rewrite foldl_app. simpl.
      rewrite extractors_fold_other_keys by exact Hafter.
      apply lookup_insert_eq.
    + eexists. eexists.
      split; [exact (WithContextExtractors_made_map _ config m Em) |].
      split; [exact (WithContextExtractors_made_map [e] (set_contextExtractors config _) _
                        eq_refl) |].
      apply lookup_insert_eq.
    + intros k' Hne.
      change (foldl (fun m extractor => <[fst (extractor context_Background) := extractor]> m)
                    m (before ++ e :: after) !! k' = m !! k').
      apply extractors_fold_other_keys. exact Hne.
    + repeat split.
Qed.

Lemma WithContextExtractors_replaces_witness :
  (exists config',
      WithContextExtractors [Key_Extractor "request"; tenant_extractor] tenant_config
      = Returns config'
      /\ c_contextExtractors config' !! "anonymous"%string = Some tenant_extractor)
  /\ WithContextExtractors [tenant_extractor] zero_Config = Panics nil_map_assignment.
Proof.
  split.
  - assert (Hmade : c_contextExtractors tenant_config <> nil_map).
    { unfold tenant_config.
      rewrite (WithContextExtractors_made_map [tenant_extractor] NewConfig ∅ eq_refl).
      intros H. discriminate H. }
    destruct (proj2 (proj2 (WithContextExtractors_replaces tenant_config
                              [Key_Extractor "request"] [] tenant_extractor [])) Hmade)
      as (config' & Hret & _ & Hk & _).
    exists config'. split; [exact Hret |]. apply Hk. intros e' [].
  - exact (proj1 (proj2 (WithContextExtractors_replaces zero_Config [] [] tenant_extractor []))
             eq_refl).
Defined.

(** ** More on the backend *)

(** X23. The encoder [Init] asks for and its time format go together:
    for the syslog output it is the syslog encoder with epoch times,
    whatever the format; otherwise the console encoder with the console
    layout for text and the JSON encoder with the RFC 3339 layout for
    json; any other format is refused with an error that wraps the
    module marker.  The keys of the entries are always the six logging
    keys. *)
Theorem Backend_makeEncoder_kinds (env : Env) (config : Config) :
  (c_Output config = SysLog ->
     Backend_makeEncoder env config
     = inl (SyslogEncoder (Backend_makeConfig config) "localhost" (os_Getpid env) (os_Args0 env))
     /\ EncodeTime (Backend_makeConfig config) = EpochTimeEncoder)
  /\ (c_Output config <> SysLog -> c_Format config = FormatText ->
        Backend_makeEncoder env config = inl (ConsoleEncoder (Backend_makeConfig config))
        /\ EncodeTime (Backend_makeConfig config) = layout_TimeEncoder TimestampFormatConsole)
  /\ (c_Output config <> SysLog -> c_Format config = FormatJSON ->
        Backend_makeEncoder env config = inl (JSONEncoder (Backend_makeConfig config))
        /\ EncodeTime (Backend_makeConfig config) = layout_TimeEncoder TimestampFormatJSON)
  /\ (c_Output config <> SysLog -> c_Format config <> FormatText ->
      c_Format config <> FormatJSON ->
        exists err, Backend_makeEncoder env config = inr err /\ is_module_error err = true)
  /\ (TimeKey (Backend_makeConfig config), LevelKey (Backend_makeConfig config),
      MessageKey (Backend_makeConfig config), NameKey (Backend_makeConfig config),
      CallerKey (Backend_makeConfig config), StacktraceKey (Backend_makeConfig config))
     = (KeyTimestamp, KeyLevel, KeyMessage, KeyLogger, KeyCaller, KeyStackTrace).
Proof.
  unfold Backend_makeEncoder, Backend_makeConfig. simpl.
  split; [| split; [| split; [| split]]].
  - intros ->. simpl. auto.
  - intros Hs ->. apply String.eqb_neq in Hs. rewrite Hs. simpl. auto.
  - intros Hs ->. apply String.eqb_neq in Hs. rewrite Hs. simpl. auto.
  - intros Hs Ht Hj. apply String.eqb_neq in Hs, Ht, Hj. rewrite Hs, Ht, Hj.
    eexists. split; reflexivity.
  - reflexivity.
Qed.

Lemma Backend_makeEncoder_kinds_witness :
  Backend_makeEncoder quiet_env
    {| c_Level := LevelInfo; c_Format := "xml"; c_Output := SysLog;
       c_CustomLevels := ∅; c_contextExtractors := nil_map |}
  = inl (SyslogEncoder
           (Backend_makeConfig
              {| c_Level := LevelInfo; c_Format := "xml"; c_Output := SysLog;
                 c_CustomLevels := ∅; c_contextExtractors := nil_map |})
           "localhost" 1 "app").
Proof.
  apply (proj1 (Backend_makeEncoder_kinds quiet_env _)). reflexivity.
Defined.



(** ** The backend: calls of Init one after the other and in steps *)

(** X25. For calls on one backend that do not overlap: an [Init] that
    succeeds starts from a backend without a core and leaves it ready,
    holding the configuration it was given.  On a
    ready backend every [Init] returns the already-configured error and
    changes neither the backend nor the registry; and whatever calls are
    made on a ready backend, in any number and order, its core and
    configuration stay as they are, so it is never unconfigured again
    and no later [Init] succeeds. *)
Theorem Backend_Init_at_most_once (env : Env) (registry : Writers) (backend : Backend) :
  (forall config registry' backend',
     Backend_Init env registry backend config = (registry', backend', None) ->
     _core backend = None /\ is_Ready backend' /\ _config backend' = config)
  /\ (is_Ready backend ->
      forall config,
        Backend_Init env registry backend config = (registry, backend, Some already_configured)
        /\ is_module_error already_configured = true)
  /\ (is_Ready backend ->
      forall calls config,
        let after := foldl (backend_step env) (registry, backend) calls in
        _core (snd after) = _core backend
        /\ _config (snd after) = _config backend
        /\ Backend_Init env (fst after) (snd after) config
           = (fst after, snd after, Some already_configured)).
Proof.
  split; [| split].
  - intros config registry' backend'. apply Backend_Init_success.
  - intros Hr config. split; [now apply Backend_Init_configured | reflexivity].
  - intros Hr calls config after. subst after.
    rewrite backend_steps_keep_ready by exact Hr. simpl.
    repeat split. now apply Backend_Init_configured.
Qed.

Lemma Backend_Init_at_most_once_witness :
  exists registry' backend',
    Backend_Init quiet_env newWritersRegistry new_Backend svc_config
    = (registry', backend', None)
    /\ Backend_Init quiet_env registry' backend' NewConfig
       = (registry', backend', Some already_configured).
Proof.
  destruct (Backend_Init quiet_env newWritersRegistry new_Backend svc_config)
    as [[registry' backend'] err] eqn:E.
  assert (He : err = None) by (vm_compute in E; congruence). subst err.
  exists registry', backend'. split; [reflexivity |].
  destruct (Backend_Init_at_most_once quiet_env newWritersRegistry new_Backend)
    as (Hsucc & _ & _).
  destruct (Hsucc svc_config registry' backend' E) as (_ & Hready & _).
  destruct (Backend_Init_at_most_once quiet_env registry' backend') as (_ & Honce & _).
  exact (proj1 (Honce Hready NewConfig)).
Defined.

(** X26. A call of [Init] that takes its three steps with no other call
    in between does what [Backend_Init] does: it leaves the same
    registry and backend and returns the same error; and a call that
    starts on a ready backend returns the already-configured error in
    its first step, whatever the other calls do afterwards. *)
Theorem Backend_Init_in_steps (env : Env) (registry : Writers) (backend : Backend)
    (config : Config) :
  Init_interleaved env (registry, backend) [config] [0; 0; 0]%nat
  = (let '(registry', backend', err) := Backend_Init env registry backend config in
     ((registry', backend'), [(config, pc_returned err)]))
  /\ (_core backend <> None ->
      Init_step env (registry, backend) (config, pc_entered)
      = ((registry, backend), (config, pc_returned (Some already_configured)))).
Proof.
  split.
  - unfold Init_interleaved, Backend_Init. simpl.
    unfold Init_schedule_step at 3. simpl.
    destruct (_core backend) as [z |]; [reflexivity |].
    unfold Init_schedule_step at 2. simpl.
    destruct (Backend_makeEncoder env config) as [encoder | err]; [| reflexivity].
    destruct (Output env registry (c_Output config)) as [registry' [syncer | err]];
      reflexivity.
  - intros Hc. simpl. destruct (_core backend); [reflexivity | congruence].
Qed.

Lemma Backend_Init_in_steps_witness :
  Init_interleaved quiet_env (newWritersRegistry, new_Backend) [svc_config] [0; 0; 0]%nat
  = ((svc_registry, svc_backend), [(svc_config, pc_returned None)])
  /\ Init_step quiet_env (svc_registry, svc_backend) (NewConfig, pc_entered)
     = ((svc_registry, svc_backend), (NewConfig, pc_returned (Some already_configured))).
Proof.
  split.
  - exact (proj1 (Backend_Init_in_steps quiet_env newWritersRegistry new_Backend svc_config)).
  - apply (proj2 (Backend_Init_in_steps quiet_env svc_registry svc_backend NewConfig)).
    intros H. discriminate H.
Defined.
